(** * Google-AutoComplete: the affix index and the fuzzy query engine

    A shallow embedding of [process_data.py] and [auto_complete.py].
    Python [str] values are lists of characters, Python [int]s are
    [Z], the index ([defaultdict(list)]) is a [gmap] from strings to lists
    of line records, a Python [set] of line records is a [gset], and the
    exceptions the code can raise are the [Raise] results of a small error
    monad.  A character is a code point below 256 (the 8-bit [ascii] read
    as Latin-1), with the classes Python's [str] and [re] give these code
    points; text with code points from 256 on is outside the model. *)

From Stdlib Require Import ZArith Ascii String List Lia Bool.
From stdpp Require Import gmap strings list fin_maps sets.

Local Open Scope Z_scope.

(** ** Python values and built-ins used by the sources *)

Abbreviation str := (list ascii).

(** An ASCII string literal as a [str] (a Rocq literal is a string of
    bytes; a character with a code from 128 on is written ["233"%char]). *)
Definition lit (s : string) : str := list_ascii_of_string s.

Inductive exn := IndexError | TypeError | ValueError.

Inductive result (A : Type) :=
| Ok (a : A)
| Raise (e : exn).
Arguments Ok {A} a.
Arguments Raise {A} e.

Global Instance result_ret : MRet result := fun A a => Ok a.

Global Instance result_bind : MBind result := fun A B f m =>
  match m with
  | Ok a => f a
  | Raise e => Raise e
  end.

Module Py.

Definition code (c : ascii) : N := N_of_ascii c.

(** [c in string.ascii_lowercase], the class [[a-z]]. *)
Definition is_lower (c : ascii) : bool :=
  ((97 <=? code c) && (code c <=? 122))%N.

Definition is_upper (c : ascii) : bool :=
  ((65 <=? code c) && (code c <=? 90))%N.

Definition is_digit (c : ascii) : bool :=
  ((48 <=? code c) && (code c <=? 57))%N.

Definition between (lo hi : N) (c : ascii) : bool :=
  ((lo <=? code c) && (code c <=? hi))%N.

(** The letters and numbers from 128 to 255 (the feminine and masculine
    ordinals, the superscripts, the micro sign, the fractions and the
    accented letters; not the multiplication and division signs). *)
Definition latin1_alnum (c : ascii) : bool :=
  between 170 170 c || between 178 179 c || between 181 181 c
  || between 185 186 c || between 188 190 c || between 192 214 c
  || between 216 246 c || between 248 255 c.

(** The class [\w] of a [str] pattern: the letters and numbers of any
    alphabet and the underscore. *)
Definition is_word (c : ascii) : bool :=
  is_lower c || is_upper c || is_digit c || (code c =? 95)%N
  || latin1_alnum c.

(** [c.isspace()]: tab to carriage return, the four separators 28..31,
    the space, the next-line control 133 and the no-break space 160. *)
Definition is_space (c : ascii) : bool :=
  between 9 13 c || between 28 32 c || between 133 133 c
  || between 160 160 c.

(** The capital accented letters, 192 to 222 without the multiplication
    sign 215. *)
Definition latin1_upper (c : ascii) : bool :=
  between 192 214 c || between 216 222 c.

(** [c.lower()]: a capital letter moves 32 code points up. *)
Definition lower_char (c : ascii) : ascii :=
  if is_upper c || latin1_upper c then ascii_of_N (code c + 32) else c.

(** [s.lower()] *)
Definition lower (s : str) : str := map lower_char s.

Fixpoint drop_while (P : ascii -> bool) (s : str) : str :=
  match s with
  | [] => []
  | c :: s' => if P c then drop_while P s' else s
  end.

Fixpoint take_while (P : ascii -> bool) (s : str) : str :=
  match s with
  | [] => []
  | c :: s' => if P c then c :: take_while P s' else []
  end.

(** [s.strip()] *)
Definition strip (s : str) : str :=
  rev (drop_while is_space (rev (drop_while is_space s))).

(** The pieces of [s] between the characters that fail [P]; empty pieces
    are kept. *)
Fixpoint chunks (P : ascii -> bool) (s : str) : list str :=
  match s with
  | [] => [[]]
  | c :: s' =>
      if P c then
        match chunks P s' with
        | r :: rs => (c :: r) :: rs
        | [] => [[c]]
        end
      else [] :: chunks P s'
  end.

Definition nonempty (s : str) : bool :=
  match s with [] => false | _ :: _ => true end.

(** The maximal runs of characters of [s] that satisfy [P]. *)
Definition runs (P : ascii -> bool) (s : str) : list str :=
  List.filter nonempty (chunks P s).

(** [s.split()]: the maximal runs of non-whitespace characters. *)
Definition split (s : str) : list str :=
  runs (fun c => negb (is_space c)) s.

(** [' '.join(ws)] *)
Fixpoint join_space (ws : list str) : str :=
  match ws with
  | [] => []
  | [w] => w
  | w :: ws' => w ++ " "%char :: join_space ws'
  end.

(** A slice bound: a negative bound counts from the end, and the result
    is clamped to [0, len]. *)
Definition bound (n : nat) (i : Z) : nat :=
  let i' := if i <? 0 then i + Z.of_nat n else i in
  Z.to_nat (Z.min (Z.max i' 0) (Z.of_nat n)).

(** [s[:i]] *)
Definition slice_to (s : str) (i : Z) : str :=
  take (bound (length s) i) s.

(** [s[i:]] *)
Definition slice_from (s : str) (i : Z) : str :=
  drop (bound (length s) i) s.

(** [s[i:j]] *)
Definition slice (s : str) (i j : Z) : str :=
  drop (bound (length s) i) (take (bound (length s) j) s).

(** [s[i]]: a negative index counts from the end; out of range raises. *)
Definition getitem (s : str) (i : Z) : result ascii :=
  let i' := if i <? 0 then i + Z.of_nat (length s) else i in
  if (0 <=? i') && (i' <? Z.of_nat (length s)) then
    match s !! Z.to_nat i' with
    | Some c => Ok c
    | None => Raise IndexError
    end
  else Raise IndexError.

Definition str_eqb (a b : str) : bool := bool_decide (a = b).

Fixpoint starts_with (u w : str) : bool :=
  match u, w with
  | [], _ => true
  | x :: u', y :: w' => bool_decide (x = y) && starts_with u' w'
  | _ :: _, [] => false
  end.

(** [u in w] on strings: [u] occurs in [w] as a substring. *)
Fixpoint contains (u w : str) : bool :=
  starts_with u w ||
  match w with
  | [] => false
  | _ :: w' => contains u w'
  end.

(** [range(a, b)] *)
Definition range (a b : Z) : list Z := seqZ a (b - a).

(** [range(n, -1, -1)]: [n, n-1, ..., 0]. *)
Definition range_down (n : nat) : list Z :=
  rev (seqZ 0 (Z.of_nat n + 1)).

(** [string.ascii_lowercase] *)
Definition ascii_lowercase : str := lit "abcdefghijklmnopqrstuvwxyz".

(** [random.sample(population, k)] is library code: [k] draws without
    replacement, the [j]-th draw taking the element at index
    [rnd j mod len] of what is left.  A negative [k] or a [k] above the
    population size raises [ValueError]. *)
Fixpoint draw {A} (rnd : nat -> nat) (j : nat) (pool : list A) (k : nat)
  : list A :=
  match k with
  | O => []
  | S k' =>
      let i := (rnd j mod length pool)%nat in
      match pool !! i with
      | Some x => x :: draw rnd (S j) (take i pool ++ drop (S i) pool) k'
      | None => []
      end
  end.

Definition sample {A} (rnd : nat -> nat) (population : list A) (k : Z)
  : result (list A) :=
  if (k <? 0) || (Z.of_nat (length population) <? k) then Raise ValueError
  else Ok (draw rnd 0 population (Z.to_nat k)).

End Py.

(** ** The compiled pattern [r'\b[a-z]+\b'] *)

Module Re.

Definition word_opt (c : option ascii) : bool :=
  match c with
  | Some c => Py.is_word c
  | None => false
  end.

(** [\b] between the characters [prev] and [next] ([None] at either end
    of the string): exactly one side is a word character. *)
Definition at_boundary (prev next : option ascii) : bool :=
  xorb (word_opt prev) (word_opt next).

(** How many leading characters [[a-z]+] can take. *)
Definition greedy (s : str) : nat := length (Py.take_while Py.is_lower s).

(** Backtracking of [[a-z]+\b]: the longest length [len >= 1], at most
    the greedy one, after which [\b] holds. *)
Fixpoint backtrack (s : str) (len : nat) : option nat :=
  match len with
  | O => None
  | S len' =>
      if at_boundary (s !! len') (s !! len) then Some len
      else backtrack s len'
  end.

(** A match of the pattern that starts at the head of [s], [prev] being
    the character before it. *)
Definition match_here (prev : option ascii) (s : str) : option nat :=
  if at_boundary prev (head s) then backtrack s (greedy s) else None.

(** The scan of [findall]: a match is emitted and the scan resumes after
    it; otherwise the scan moves one character on. *)
Fixpoint findall_from (fuel : nat) (prev : option ascii) (s : str)
  : list str :=
  match fuel with
  | O => []
  | S fuel' =>
      match s with
      | [] => []
      | c :: s' =>
          match match_here prev s with
          | Some n =>
              take n s :: findall_from fuel' (last (take n s)) (drop n s)
          | None => findall_from fuel' (Some c) s'
          end
      end
  end.

(** [word_re.findall(s)] *)
Definition findall (s : str) : list str := findall_from (length s) None s.

End Re.

(** ** Line records and the index *)

(** [(text, line_number, source_id)] *)
Abbreviation LineRecord := (str * Z * str)%type.

Abbreviation Index := (gmap str (list LineRecord)).

(** [key in ht] *)
Definition in_ht (ht : Index) (key : str) : bool :=
  bool_decide (is_Some (ht !! key)).

(** [ht[key]] of a [defaultdict(list)]; the sources only read keys that
    are present. *)
Definition ht_get (ht : Index) (key : str) : list LineRecord :=
  default [] (ht !! key).

(** ** process_data.py *)

Module ProcessData.

(** [get_all_substrings]: the prefixes [w[0:j]] and suffixes [w[-j:n]]
    for [j] in [range(2, n+1)]. *)
Definition word_substrings (sub_strings : gset str) (w : str) : gset str :=
  let n := Z.of_nat (length w) in
  foldl (fun acc j => (acc ∪ {[ Py.slice w 0 j ]}) ∪ {[ Py.slice w (- j) n ]})
        sub_strings (Py.range 2 (n + 1)).

Definition get_all_substrings (words : list str) : gset str :=
  foldl word_substrings ∅ words.

(** [remove_punctuation] *)
Definition remove_punctuation (line : str) : str :=
  Py.join_space (Re.findall (Py.lower line)).

(** [filename or "Unknown"] *)
Definition source_of (filename : str) : str :=
  if Py.nonempty filename then filename else lit "Unknown".

(** [self.__data[substring].append(record)] *)
Definition append_record (record : LineRecord) (substring : str)
  (data : Index) : Index :=
  <[ substring := ht_get data substring ++ [record] ]> data.

(** The body of the loop of [process] for line [i]. *)
Definition process_line (filename : str) (data : Index) (i : nat)
  (line : str) : Index :=
  let clean_line := remove_punctuation (Py.strip line) in
  if Py.nonempty clean_line then
    let sub_string := get_all_substrings (Py.split clean_line) in
    set_fold (append_record (line, Z.of_nat i + 1, source_of filename))
             data sub_string
  else data.

Fixpoint process_from (filename : str) (data : Index) (i : nat)
  (lines : list str) : Index :=
  match lines with
  | [] => data
  | line :: rest =>
      process_from filename (process_line filename data i line) (S i) rest
  end.

(** [process(lines, filename)] on the index [data]. *)
Definition process (data : Index) (lines : list str) (filename : str)
  : Index :=
  process_from filename data 0 lines.

End ProcessData.

(** ** auto_complete_data.py *)

Record AutoCompleteData := mkAutoCompleteData {
  completed_sentence : str;
  source_text : str;
  offset : Z;
  score : Z
}.

(** ** auto_complete.py *)

Module AutoComplete.

Abbreviation Scored := (str * Z)%type.

(** [create_auto_complete]; the score keeps its default [0]. *)
Definition create_auto_complete (lines : list LineRecord)
  : list AutoCompleteData :=
  map (fun line : LineRecord =>
         mkAutoCompleteData line.1.1 line.2 line.1.2 0) lines.

(** The string [delete_char] forms at position [i]. *)
Definition deleted (sentence : str) (i : Z) : str :=
  Py.slice_to sentence i ++ Py.slice_from sentence (i + 1).

(** The score [delete_char] gives to a deletion at position [i]. *)
Definition delete_score (sentence : str) (i : Z) : Z :=
  (Z.of_nat (length sentence) - 1) * 2 - Z.max (10 - 2 * i) 2.

(** The loop of [delete_char] over the positions still to visit. *)
Fixpoint delete_loop (ht : Index) (sentence : str) (positions : list Z)
  (valid_sentences : list Scored) : list Scored :=
  match positions with
  | [] => valid_sentences
  | i :: rest =>
      let new_sentence := deleted sentence i in
      if in_ht ht new_sentence then
        let valid' :=
          valid_sentences ++ [(new_sentence, delete_score sentence i)] in
        if (length valid' =? 5)%nat then valid'
        else delete_loop ht sentence rest valid'
      else delete_loop ht sentence rest valid_sentences
  end.

Definition delete_char (ht : Index) (sentence : str) : list Scored :=
  delete_loop ht sentence (Py.range_down (length sentence)) [].

Definition penalties : list Z := [10; 8; 6; 4].

(** [addition_score]; [add_char] calls it with [index >= 0].  A negative
    index reads the table from its end; below [-4] the source raises and
    the model does not follow it. *)
Definition addition_score (index max_score : Z) : Z :=
  max_score -
  (if index <? 4 then
     default 0 (penalties !! Z.to_nat (if index <? 0 then index + 4 else index))
   else 2).

(** The string [add_char] forms with [char] at position [i]. *)
Definition added (sentence : str) (char : ascii) (i : Z) : str :=
  Py.slice_to sentence i ++ char :: Py.slice_from sentence i.

Definition add_positions (ht : Index) (sentence : str) (char : ascii)
  (positions : list Z) : list Scored :=
  flat_map (fun i =>
    let cur_word := added sentence char i in
    if in_ht ht cur_word then
      [(cur_word, addition_score i (Z.of_nat (length sentence) * 2))]
    else []) positions.

Definition add_char (ht : Index) (sentence : str) : list Scored :=
  flat_map (fun char =>
    add_positions ht sentence char (Py.range_down (length sentence)))
    Py.ascii_lowercase.

(** The loop of [has_multiple_mismatches]. *)
Fixpoint mismatch_loop (ht : Index) (words : list str) (mismatches : Z)
  : bool :=
  match words with
  | [] => false
  | word :: rest =>
      if in_ht ht word then mismatch_loop ht rest mismatches
      else
        if mismatches + 1 >? 1 then true
        else mismatch_loop ht rest (mismatches + 1)
  end.

Definition has_multiple_mismatches (ht : Index) (subtext : str) : bool :=
  mismatch_loop ht (Py.split subtext) 0.

Fixpoint find_from (ht : Index) (i : Z) (words : list str)
  : option (str * Z) :=
  match words with
  | [] => None
  | word :: rest =>
      if in_ht ht word then find_from ht (i + 1) rest else Some (word, i)
  end.

(** The index paired with the word is its rank among the words of the
    subtext, as [enumerate] gives it. *)
Definition find_mismatched_word_and_index (ht : Index) (subtext : str)
  : option (str * Z) :=
  find_from ht 0 (Py.split subtext).

(** The string [generate_possible_replacements] forms with [char] at
    position [pos]. *)
Definition replaced (subtext : str) (char : ascii) (pos : Z) : str :=
  Py.slice_to subtext pos ++ char :: Py.slice_from subtext (pos + 1).

Definition replace_penalty (pos : Z) : Z :=
  if pos >? 3 then 1 else 5 - pos.

(** The inner loop, over the letters still to try at position [pos]; its
    [break] leaves this loop only. *)
Fixpoint replace_letters (ht : Index) (subtext : str) (pos : Z)
  (letters : list ascii) (possible_words : list Scored)
  : result (list Scored) :=
  match letters with
  | [] => Ok possible_words
  | char :: rest =>
      c ← Py.getitem subtext pos;
      if bool_decide (char = c) then
        replace_letters ht subtext pos rest possible_words
      else
        let new_word := replaced subtext char pos in
        if in_ht ht new_word then
          let new_score :=
            (Z.of_nat (length subtext) - 1) * 2 - replace_penalty pos in
          let possible' := possible_words ++ [(new_word, new_score)] in
          if (length possible' =? 5)%nat then Ok possible'
          else replace_letters ht subtext pos rest possible'
        else replace_letters ht subtext pos rest possible_words
  end.

(** The outer loop, over the offsets [i] still to visit. *)
Fixpoint replace_offsets (ht : Index) (subtext : str) (end_word_index : Z)
  (offsets : list Z) (possible_words : list Scored)
  : result (list Scored) :=
  match offsets with
  | [] => Ok possible_words
  | i :: rest =>
      possible' ← replace_letters ht subtext (end_word_index - i)
                    Py.ascii_lowercase possible_words;
      replace_offsets ht subtext end_word_index rest possible'
  end.

Definition generate_possible_replacements (ht : Index)
  (mismatched_word subtext : str) (end_word_index : Z)
  : result (list Scored) :=
  replace_offsets ht subtext end_word_index
    (Py.range_down (length mismatched_word)) [].

(** Unpacking the [None] of [find_mismatched_word_and_index] raises
    [TypeError]. *)
Definition replace_char (ht : Index) (subtext : str)
  : result (list Scored) :=
  if has_multiple_mismatches ht subtext then Ok []
  else
    match find_mismatched_word_and_index ht subtext with
    | None => Raise TypeError
    | Some (mismatched_word, start_index) =>
        let end_word_index :=
          start_index + Z.of_nat (length mismatched_word) - 1 in
        generate_possible_replacements ht mismatched_word subtext
          end_word_index
    end.

(** The pool of candidates: substitutions, deletions, insertions. *)
Definition combining_list (ht : Index) (subtext : str)
  : result (list Scored) :=
  replaced_words ← replace_char ht subtext;
  Ok (replaced_words ++ delete_char ht subtext ++ add_char ht subtext).

(** The scan for the greatest score; [higher] is [None] for [-inf]. *)
Fixpoint best_of (combining : list Scored) (higher : option Z)
  (found_key : str) : str :=
  match combining with
  | [] => found_key
  | combination :: rest =>
      let better :=
        match higher with
        | None => true
        | Some h => combination.2 >? h
        end in
      if better then best_of rest (Some combination.2) combination.1
      else best_of rest higher found_key
  end.

Definition get_best_completions (ht : Index) (subtext : str) : result str :=
  combining ← combining_list ht subtext;
  Ok (best_of combining None []).

(** The [while] loop of [check_if_input_in_line] on [user_input_words[j:]]
    and [line_words[k:]]: it returns [False] from the function, or ends
    with the final [j]. *)
Inductive scan := ScanFalse | ScanEnd (j : nat).

Fixpoint while_scan (input_rest line_rest : list str) (j : nat) : scan :=
  match input_rest, line_rest with
  | u :: input_rest', w :: line_rest' =>
      if Py.contains u w then while_scan input_rest' line_rest' (S j)
      else ScanFalse
  | _, _ => ScanEnd j
  end.

(** The [for] loop on [line_words[i:]]. *)
Fixpoint check_from (user_input_words line_rest : list str) : result bool :=
  match line_rest with
  | [] => Ok false
  | word :: rest =>
      match user_input_words with
      | [] => Raise IndexError
      | first :: _ =>
          if Py.contains first word then
            match while_scan user_input_words line_rest 0 with
            | ScanFalse => Ok false
            | ScanEnd j =>
                if (j =? length user_input_words)%nat then Ok true
                else check_from user_input_words rest
            end
          else check_from user_input_words rest
      end
  end.

Definition check_if_input_in_line (user_input_words line_words : list str)
  : result bool :=
  check_from user_input_words line_words.

(** [word_re.findall(s.lower().strip())] *)
Definition tokenize (s : str) : list str :=
  Re.findall (Py.strip (Py.lower s)).

(** The update of [lines] by the record list of a resolved token. *)
Definition narrow (ht : Index) (lines : gset LineRecord) (word : str)
  : gset LineRecord :=
  if (size lines =? 0)%nat then list_to_set (ht_get ht word)
  else lines ∩ list_to_set (ht_get ht word).

(** The loop over [user_words]; [None] is the early [return []]. *)
Fixpoint resolve_loop (ht : Index) (user_words : list str)
  (lines : gset LineRecord) (correct_sentence : list str)
  : result (option (gset LineRecord * list str)) :=
  match user_words with
  | [] => Ok (Some (lines, correct_sentence))
  | word :: rest =>
      if in_ht ht word then
        resolve_loop ht rest (narrow ht lines word) (correct_sentence ++ [word])
      else
        new_word ← get_best_completions ht word;
        if Py.nonempty new_word then
          resolve_loop ht rest (narrow ht lines new_word)
            (correct_sentence ++ [new_word])
        else Ok None
  end.

(** The ordered-occurrence filter over the lines of the set. *)
Fixpoint filter_lines (correct_sentence : list str)
  (lines : list LineRecord) : result (list LineRecord) :=
  match lines with
  | [] => Ok []
  | line :: rest =>
      keep ← check_if_input_in_line correct_sentence (tokenize line.1.1);
      kept ← filter_lines correct_sentence rest;
      Ok (if keep : bool then line :: kept else kept)
  end.

(** [final_lines] as it stands before the result is cut to [k]; [None] is
    the early [return []]. *)
Definition final_lines (ht : Index) (user_input : str)
  : result (option (list LineRecord)) :=
  let user_words := tokenize user_input in
  resolved ← resolve_loop ht user_words ∅ [];
  match resolved with
  | None => Ok None
  | Some (lines, correct_sentence) =>
      if (1 <? length user_words)%nat then
        kept ← filter_lines correct_sentence (elements lines);
        Ok (Some kept)
      else Ok (Some (elements lines))
  end.

Definition get_best_k_completion (rnd : nat -> nat) (ht : Index)
  (user_input : str) (k : Z) : result (list AutoCompleteData) :=
  final ← final_lines ht user_input;
  match final with
  | None => Ok []
  | Some final_lines =>
      if Z.of_nat (length final_lines) >? k then
        random_elements ← Py.sample rnd final_lines k;
        Ok (create_auto_complete random_elements)
      else Ok (create_auto_complete final_lines)
  end.

End AutoComplete.

(** ** zip_opener.py *)

Module ZipOpener.

(** A member of the archive: its name, whether it is a directory, and the
    rows that [file.read().decode('utf-8').splitlines()] gives. *)
Record member := mkMember {
  filename : str;
  is_dir : bool;
  rows : list str
}.

(** [s.endswith(suffix)] *)
Definition endswith (s suffix : str) : bool :=
  Py.starts_with (rev suffix) (rev s).

(** [read]: every text file of the archive is processed in turn. *)
Definition read (data : Index) (infolist : list member) : Index :=
  foldl (fun data file_info =>
           if negb (is_dir file_info)
              && endswith (filename file_info) (lit ".txt")
           then ProcessData.process data (rows file_info) (filename file_info)
           else data)
        data infolist.

End ZipOpener.

(** ** Notions the properties are stated with *)

(** The words the tokenizer keeps, said without the pattern: the maximal
    runs of word characters (the letters and numbers of any alphabet and
    the underscore) that are made of the lowercase letters [a] to [z]
    only. *)
Definition alpha_words (s : str) : list str :=
  List.filter (forallb Py.is_lower) (Py.runs Py.is_word s).

(** The words as the specification describes them: the maximal runs of
    lowercase letters, every other character being a separator. *)
Definition alpha_runs (s : str) : list str := Py.runs Py.is_lower s.

Definition keep_words (chunks : list str) : list str :=
  List.filter (forallb Py.is_lower) (List.filter Py.nonempty chunks).

(** The entry of [key] holds [record]. *)
Definition has_record (data : Index) (key : str) (record : LineRecord) : Prop :=
  exists records, data !! key = Some records /\ record ∈ records.

(** A query token: a non-empty string of lowercase letters. *)
Definition is_token (w : str) : Prop :=
  w <> [] /\ forallb Py.is_lower w = true.

(** [u] occurs in [w] as a substring. *)
Definition substring (u w : str) : Prop :=
  exists before after, w = before ++ u ++ after.

(** The tokens [resolved] are substrings of the line tokens that start at
    index [i], one line token for each, in order. *)
Definition run_at (resolved line_words : list str) (i : nat) : Prop :=
  forall (j : nat) (u : str), resolved !! j = Some u ->
    exists w, line_words !! (i + j)%nat = Some w /\ substring u w.

Definition contiguous_run (resolved line_words : list str) : Prop :=
  exists i, run_at resolved line_words i.

(** The result built from one line record. *)
Definition completion_of (line : LineRecord) : AutoCompleteData :=
  mkAutoCompleteData line.1.1 line.2 line.1.2 0.

(** One insertion, one deletion or one substitution of a character. *)
Inductive one_edit : str -> str -> Prop :=
| edit_insert before c after :
    one_edit (before ++ after) (before ++ c :: after)
| edit_delete before c after :
    one_edit (before ++ c :: after) (before ++ after)
| edit_substitute before c d after :
    c <> d -> one_edit (before ++ c :: after) (before ++ d :: after).

(** [key] is a prefix or a suffix of [w], of length at least 2. *)
Definition affix (key w : str) : Prop :=
  exists j : nat, (2 <= j <= length w)%nat /\
    (key = take j w \/ key = drop (length w - j) w).

(** The words of the cleaned line, as [process] splits them. *)
Definition clean_words (line : str) : list str :=
  Py.split (ProcessData.remove_punctuation (Py.strip line)).

(** [record] is the record of a line of [lines] that has a word with the
    affix [key]. *)
Definition record_of_affix (lines : list str) (filename key : str)
  (record : LineRecord) : Prop :=
  exists (i : nat) (line w : str),
    lines !! i = Some line /\
    record = (line, Z.of_nat i + 1, ProcessData.source_of filename) /\
    In w (clean_words line) /\ affix key w.

(** Every entry is non-empty and holds only records of lines that have a
    word with the key as an affix. *)
Definition sound_index (lines : list str) (filename : str) (data : Index)
  : Prop :=
  forall (key : str) records, data !! key = Some records ->
    records <> [] /\
    forall record, In record records ->
      record_of_affix lines filename key record.

(** The set intersection of the record lists of the resolved tokens. *)
Definition intersect_entries (ht : Index) (resolved : list str)
  : gset LineRecord :=
  match resolved with
  | [] => ∅
  | u :: rest =>
      foldl (fun acc w => acc ∩ list_to_set (ht_get ht w))
            (list_to_set (ht_get ht u)) rest
  end.

(** The lines of that intersection which pass the ordered-occurrence
    filter (applied to queries of two tokens or more). *)
Definition intersection_and_filter (ht : Index) (resolved : list str)
  : list LineRecord :=
  List.filter
    (fun line : LineRecord =>
       if (1 <? length resolved)%nat then
         match AutoComplete.check_if_input_in_line resolved
                 (AutoComplete.tokenize line.1.1) with
         | Ok true => true
         | _ => false
         end
       else true)
    (elements (intersect_entries ht resolved)).

(** * Properties *)

(** ** Character classes *)

Lemma is_lower_word c : Py.is_lower c = true -> Py.is_word c = true.
Proof. unfold Py.is_word. intros ->. reflexivity. Qed.

Lemma is_lower_not_space c : Py.is_lower c = true -> Py.is_space c = false.
Proof.
  destruct c as [[] [] [] [] [] [] [] []]; vm_compute; congruence.
Qed.

Lemma not_word_not_lower c : Py.is_word c = false -> Py.is_lower c = false.
Proof.
  destruct (Py.is_lower c) eqn:E; [|reflexivity].
  rewrite (is_lower_word _ E). congruence.
Qed.

(** ** Prefixes taken and dropped by a character class *)

Section Spans.
Variable P : ascii -> bool.

Lemma take_drop_while s : Py.take_while P s ++ Py.drop_while P s = s.
Proof.
  induction s as [|c s IH]; simpl; [reflexivity|].
  destruct (P c); simpl; [by rewrite IH | reflexivity].
Qed.

Lemma take_while_all s : forallb P (Py.take_while P s) = true.
Proof.
  induction s as [|c s IH]; simpl; [reflexivity|].
  destruct (P c) eqn:E; simpl; [by rewrite E | reflexivity].
Qed.

Lemma drop_while_head s x rest :
  Py.drop_while P s = x :: rest -> P x = false.
Proof.
  induction s as [|c s IH]; simpl; [discriminate|].
  destruct (P c) eqn:E; [assumption|].
  intros [= -> _]. assumption.
Qed.

Lemma take_while_length s :
  (length (Py.take_while P s) <= length s)%nat.
Proof.
  rewrite <- (take_drop_while s) at 2. rewrite length_app. lia.
Qed.

Lemma take_take_while s : take (length (Py.take_while P s)) s = Py.take_while P s.
Proof.
  rewrite <- (take_drop_while s) at 2. by rewrite take_app_length.
Qed.

Lemma drop_take_while s : drop (length (Py.take_while P s)) s = Py.drop_while P s.
Proof.
  rewrite <- (take_drop_while s) at 2. by rewrite drop_app_length.
Qed.

Lemma lookup_in_take_while s (i : nat) :
  (i < length (Py.take_while P s))%nat ->
  exists x, s !! i = Some x /\ P x = true.
Proof.
  revert i. induction s as [|c s IH]; simpl; intros i Hi; [lia|].
  destruct (P c) eqn:E; simpl in Hi; [|lia].
  destruct i as [|i]; simpl; [eauto|]. apply IH. lia.
Qed.

Lemma lookup_after_take_while s :
  s !! length (Py.take_while P s) = head (Py.drop_while P s).
Proof.
  induction s as [|c s IH]; simpl; [reflexivity|].
  destruct (P c); simpl; [assumption | reflexivity].
Qed.

(** The first chunk is the prefix taken by [P]; the other chunks are
    those of what follows the separator. *)
Lemma chunks_unfold s :
  Py.chunks P s =
  Py.take_while P s ::
    match Py.drop_while P s with
    | [] => []
    | _ :: rest => Py.chunks P rest
    end.
Proof.
  induction s as [|c s IH]; simpl; [reflexivity|].
  destruct (P c); [|reflexivity]. by rewrite IH.
Qed.

Lemma chunks_all s r : In r (Py.chunks P s) -> forallb P r = true.
Proof.
  revert r. induction s as [|c s IH]; simpl; intros r.
  - intros [<-|[]]. reflexivity.
  - destruct (P c) eqn:E.
    + destruct (Py.chunks P s) as [|r0 rs]; simpl.
      * intros [<-|[]]. simpl. by rewrite E.
      * intros [<-|Hin]; [|apply IH; by right].
        simpl. rewrite E. apply IH. by left.
    + intros [<-|Hin]; [reflexivity | by apply IH].
Qed.

(** A word of [P]-characters followed by a separator is the first chunk. *)
Lemma chunks_app_sep w c s :
  forallb P w = true -> P c = false ->
  Py.chunks P (w ++ c :: s) = w :: Py.chunks P s.
Proof.
  intros Hw Hc. induction w as [|x w IH]; simpl.
  - by rewrite Hc.
  - simpl in Hw. apply andb_true_iff in Hw as [Hx Hw].
    rewrite Hx, (IH Hw). reflexivity.
Qed.

Lemma chunks_word w : forallb P w = true -> Py.chunks P w = [w].
Proof.
  induction w as [|x w IH]; simpl; [reflexivity|].
  intros [Hx Hw]%andb_true_iff. by rewrite Hx, (IH Hw).
Qed.

End Spans.

Lemma take_while_lower_le s :
  (length (Py.take_while Py.is_lower s)
   <= length (Py.take_while Py.is_word s))%nat.
Proof.
  induction s as [|c s IH]; simpl; [lia|].
  destruct (Py.is_lower c) eqn:E.
  - rewrite (is_lower_word _ E). simpl. lia.
  - simpl. lia.
Qed.

Lemma take_while_lower_eq s :
  forallb Py.is_lower (Py.take_while Py.is_word s) = true ->
  Py.take_while Py.is_lower s = Py.take_while Py.is_word s.
Proof.
  induction s as [|c s IH]; simpl; [reflexivity|].
  destruct (Py.is_word c) eqn:W; simpl.
  - intros [Hc Hs]%andb_true_iff. rewrite Hc. by rewrite IH.
  - intros _. by rewrite (not_word_not_lower _ W).
Qed.

Lemma take_while_lower_lt s :
  forallb Py.is_lower (Py.take_while Py.is_word s) = false ->
  (length (Py.take_while Py.is_lower s)
   < length (Py.take_while Py.is_word s))%nat.
Proof.
  induction s as [|c s IH]; simpl; [discriminate|].
  destruct (Py.is_word c) eqn:W; simpl; [|discriminate].
  destruct (Py.is_lower c) eqn:E; simpl; [|lia].
  intros H. apply IH in H. lia.
Qed.

(** ** The tokenizer *)

Lemma backtrack_none s n :
  (forall len, (len < n)%nat ->
     Re.at_boundary (s !! len) (s !! S len) = false) ->
  Re.backtrack s n = None.
Proof.
  induction n as [|n IH]; intros H; simpl; [reflexivity|].
  rewrite H by lia. apply IH. intros len Hlen. apply H. lia.
Qed.

Lemma word_opt_last_all (r : str) :
  r <> [] -> forallb Py.is_word r = true -> Re.word_opt (last r) = true.
Proof.
  induction r as [|x r IH]; [congruence|].
  intros _ [Hx Hr]%andb_true_iff.
  destruct r as [|y r]; [exact Hx|].
  change (last (x :: y :: r)) with (last (y :: r)). by apply IH.
Qed.

Lemma word_opt_head_drop_while s :
  Re.word_opt (head (Py.drop_while Py.is_word s)) = false.
Proof.
  destruct (Py.drop_while Py.is_word s) as [|x rest] eqn:E; [reflexivity|].
  simpl. by apply drop_while_head in E.
Qed.

Lemma last_lookup_pred (r : str) n :
  length r = S n -> last r = r !! n.
Proof. intros H. rewrite last_lookup, H. reflexivity. Qed.

(** At the start of a run of word characters that are all lowercase
    letters, the pattern takes the whole run. *)
Lemma match_here_run prev s :
  Re.word_opt prev = false ->
  Py.take_while Py.is_word s <> [] ->
  forallb Py.is_lower (Py.take_while Py.is_word s) = true ->
  Re.match_here prev s = Some (length (Py.take_while Py.is_word s)).
Proof.
  intros Hprev Hne Hall. unfold Re.match_here, Re.at_boundary.
  rewrite Hprev.
  assert (Hhead : Re.word_opt (head s) = true).
  { destruct s as [|c s]; [by simpl in Hne|]. simpl in *.
    destruct (Py.is_word c); [reflexivity | by simpl in Hne]. }
  rewrite Hhead. simpl.
  unfold Re.greedy. rewrite (take_while_lower_eq _ Hall).
  destruct (length (Py.take_while Py.is_word s)) as [|n] eqn:Hlen.
  { destruct (Py.take_while Py.is_word s); [congruence | discriminate]. }
  simpl.
  assert (Hnext : s !! S n = head (Py.drop_while Py.is_word s)).
  { rewrite <- Hlen. apply lookup_after_take_while. }
  rewrite Hnext.
  destruct (lookup_in_take_while Py.is_word s n) as (x & -> & Hx); [lia|].
  unfold Re.at_boundary. simpl. by rewrite Hx, word_opt_head_drop_while.
Qed.

(** Inside a run of word characters the pattern finds no match: either
    [\b] fails at the start, or it fails after every lowercase prefix. *)
Lemma match_here_inside prev s :
  Re.word_opt prev = true \/
  forallb Py.is_lower (Py.take_while Py.is_word s) = false ->
  Py.take_while Py.is_word s <> [] ->
  Re.match_here prev s = None.
Proof.
  intros H Hne. unfold Re.match_here.
  assert (Hhead : Re.word_opt (head s) = true).
  { destruct s as [|c s]; [by simpl in Hne|]. simpl in *.
    destruct (Py.is_word c); [reflexivity | by simpl in Hne]. }
  unfold Re.at_boundary at 1. rewrite Hhead.
  destruct (Re.word_opt prev) eqn:Hprev; simpl; [reflexivity|].
  destruct H as [H|H]; [discriminate|].
  apply backtrack_none. intros len Hlen. unfold Re.greedy in Hlen.
  pose proof (take_while_lower_lt _ H) as Hlt.
  destruct (lookup_in_take_while Py.is_word s len) as (x & -> & Hx); [lia|].
  destruct (lookup_in_take_while Py.is_word s (S len)) as (y & -> & Hy); [lia|].
  unfold Re.at_boundary. simpl. by rewrite Hx, Hy.
Qed.

(** At a separator the pattern finds no match. *)
Lemma match_here_sep prev c s :
  Py.is_word c = false -> Re.match_here prev (c :: s) = None.
Proof.
  intros Hc. unfold Re.match_here, Re.greedy. simpl.
  rewrite (not_word_not_lower _ Hc). simpl.
  by destruct (Re.at_boundary prev (Some c)).
Qed.

(** The scan, once it has enough fuel, keeps exactly the chunks that are
    non-empty and lowercase; a chunk already entered is passed over. *)
Lemma findall_from_chunks fuel : forall prev s,
  (length s <= fuel)%nat ->
  Re.findall_from fuel prev s =
  keep_words (if Re.word_opt prev then tail (Py.chunks Py.is_word s)
              else Py.chunks Py.is_word s).
Proof.
  induction fuel as [|fuel IH]; intros prev s Hlen.
  { destruct s; [|simpl in Hlen; lia]. simpl. by destruct (Re.word_opt prev). }
  destruct s as [|c s]; [simpl; by destruct (Re.word_opt prev)|].
  simpl in Hlen. cbn [Re.findall_from].
  destruct (Py.is_word c) eqn:Hc.
  - (* a word character *)
    assert (Hne : Py.take_while Py.is_word (c :: s) <> []).
    { simpl. by rewrite Hc. }
    destruct (Re.word_opt prev) eqn:Hprev.
    + rewrite match_here_inside by auto.
      rewrite IH by lia. simpl. rewrite Hc.
      rewrite (chunks_unfold _ s). reflexivity.
    + destruct (forallb Py.is_lower (Py.take_while Py.is_word (c :: s))) eqn:Hall.
      * rewrite (match_here_run _ _ Hprev Hne Hall).
        rewrite take_take_while, drop_take_while.
        rewrite IH.
        2:{ pose proof (take_drop_while Py.is_word (c :: s)) as Happ.
            apply (f_equal length) in Happ. rewrite length_app in Happ.
            simpl in Happ. simpl in Hne. rewrite Hc in Happ. simpl in Happ.
            simpl. rewrite Hc. lia. }
        rewrite word_opt_last_all;
          [|assumption|apply take_while_all].
        rewrite (chunks_unfold _ (c :: s)). unfold keep_words.
        cbn [List.filter].
        assert (Hn : Py.nonempty (Py.take_while Py.is_word (c :: s)) = true).
        { simpl. by rewrite Hc. }
        rewrite Hn. cbn [List.filter]. rewrite Hall. f_equal.
        destruct (Py.drop_while Py.is_word (c :: s)) as [|x rest] eqn:Hd;
          [reflexivity|].
        apply drop_while_head in Hd as Hx.
        cbn [Py.chunks]. rewrite Hx. reflexivity.
      * rewrite match_here_inside by auto.
        rewrite IH by lia. simpl Re.word_opt. rewrite Hc.
        simpl. rewrite Hc. rewrite (chunks_unfold _ s).
        unfold keep_words. cbn [List.filter Py.nonempty tail].
        simpl in Hall. rewrite Hc in Hall. rewrite Hall. reflexivity.
  - (* a separator *)
    rewrite match_here_sep by assumption.
    rewrite IH by lia. simpl. rewrite Hc.
    by destruct (Re.word_opt prev).
Qed.

Lemma findall_alpha_words s : Re.findall s = alpha_words s.
Proof.
  unfold Re.findall. rewrite findall_from_chunks by lia. reflexivity.
Qed.

(** Every token is a non-empty string of lowercase letters. *)
Lemma findall_token s w :
  In w (Re.findall s) -> w <> [] /\ forallb Py.is_lower w = true.
Proof.
  rewrite findall_alpha_words. unfold alpha_words, Py.runs.
  intros [Hin Hlow]%filter_In. apply filter_In in Hin as [_ Hne].
  split; [|assumption]. by destruct w.
Qed.

Lemma lower_no_space w :
  forallb Py.is_lower w = true ->
  forallb (fun c => negb (Py.is_space c)) w = true.
Proof.
  induction w as [|c w IH]; simpl; [reflexivity|].
  intros [Hc Hw]%andb_true_iff.
  by rewrite (is_lower_not_space _ Hc), (IH Hw).
Qed.

(** Splitting the joined tokens gives the tokens back. *)
Lemma split_join_space ws :
  (forall w, In w ws -> w <> [] /\ forallb Py.is_lower w = true) ->
  Py.split (Py.join_space ws) = ws.
Proof.
  unfold Py.split, Py.runs.
  induction ws as [|w ws IH]; intros H; [reflexivity|].
  destruct (H w (or_introl eq_refl)) as [Hne Hlow].
  assert (Hn : Py.nonempty w = true) by by destruct w.
  destruct ws as [|w' ws].
  - simpl. rewrite chunks_word by by apply lower_no_space.
    simpl. by rewrite Hn.
  - change (Py.join_space (w :: w' :: ws))
      with (w ++ " "%char :: Py.join_space (w' :: ws)).
    rewrite chunks_app_sep; [|by apply lower_no_space|reflexivity].
    cbn [List.filter]. rewrite Hn. f_equal. apply IH.
    intros x Hx. apply H. by right.
Qed.

(** C4, as the code has it: for every line of code points below 256,
    cleaning and query tokenization produce exactly the maximal runs of
    word characters (the letters and numbers of any alphabet and the
    underscore) of the lowercased input that consist of the lowercase
    letters [a] to [z] only.  Punctuation and whitespace separate words; a
    digit, an underscore or an accented letter does not, and a run that
    contains one is dropped whole.  The words of the cleaned line are these
    runs, and so are the query tokens (of the lowercased, trimmed
    query). *)
Theorem cleaning_keeps_lowercase_word_runs (line : str) :
  Re.findall (Py.lower line) = alpha_words (Py.lower line) /\
  Py.split (ProcessData.remove_punctuation line) = alpha_words (Py.lower line) /\
  AutoComplete.tokenize line = alpha_words (Py.strip (Py.lower line)).
Proof.
  split; [apply findall_alpha_words|]. split.
  - unfold ProcessData.remove_punctuation.
    rewrite split_join_space by apply findall_token.
    apply findall_alpha_words.
  - apply findall_alpha_words.
Qed.

(** C4 as stated fails on ["abc1def"]: its maximal runs of lowercase
    letters are ["abc"] and ["def"], and the cleaned line has no word. *)
Lemma cleaning_digit_not_separator :
  alpha_runs (Py.lower (lit "abc1def")) = [lit "abc"; lit "def"] /\
  Py.split (ProcessData.remove_punctuation (lit "abc1def")) = [] /\
  Re.findall (Py.lower (lit "abc1def"))
    <> alpha_runs (Py.lower (lit "abc1def")).
Proof. vm_compute. repeat split; congruence. Qed.

(** An accented letter is a word character: ["CafÉ au lait"] (with the
    capital E acute, code 201) is cleaned to ["au lait"]. *)
Example cleaning_accented_word :
  ProcessData.remove_punctuation (lit "Caf" ++ "201"%char :: lit " au lait")
  = lit "au lait".
Proof. vm_compute. reflexivity. Qed.

(** ** The index builder *)

Lemma bound_zero n : Py.bound n 0 = 0%nat.
Proof. unfold Py.bound. simpl. lia. Qed.

Lemma bound_length n : Py.bound n (Z.of_nat n) = n.
Proof.
  unfold Py.bound. destruct (Z.ltb_spec (Z.of_nat n) 0); lia.
Qed.

Lemma slice_whole (w : str) : Py.slice w 0 (Z.of_nat (length w)) = w.
Proof.
  unfold Py.slice. rewrite bound_zero, bound_length.
  by rewrite firstn_all.
Qed.

Lemma word_substrings_steps (w : str) (js : list Z) : forall acc : gset str,
  (forall x, x ∈ acc ->
     x ∈ foldl (fun acc j => (acc ∪ {[ Py.slice w 0 j ]})
                               ∪ {[ Py.slice w (- j) (Z.of_nat (length w)) ]})
               acc js) /\
  (forall j, j ∈ js ->
     Py.slice w 0 j
       ∈ foldl (fun acc j => (acc ∪ {[ Py.slice w 0 j ]})
                               ∪ {[ Py.slice w (- j) (Z.of_nat (length w)) ]})
               acc js).
Proof.
  induction js as [|j0 js IH]; intros acc; simpl.
  - split; [auto|]. intros j Hj. by apply elem_of_nil in Hj.
  - split.
    + intros x Hx. apply (proj1 (IH _)).
      apply elem_of_union_l, elem_of_union_l, Hx.
    + intros j [->|Hj]%elem_of_cons.
      * apply (proj1 (IH _)).
        apply elem_of_union_l, elem_of_union_r, elem_of_singleton_2.
        reflexivity.
      * by apply (proj2 (IH _)).
Qed.

Lemma word_substrings_keeps acc w x :
  x ∈ acc -> x ∈ ProcessData.word_substrings acc w.
Proof.
  unfold ProcessData.word_substrings. cbv zeta.
  exact (proj1 (word_substrings_steps w _ acc) x).
Qed.

Lemma word_substrings_self acc (w : str) :
  (2 <= length w)%nat -> w ∈ ProcessData.word_substrings acc w.
Proof.
  intros Hlen. unfold ProcessData.word_substrings. cbv zeta.
  rewrite <- (slice_whole w) at 1.
  apply (proj2 (word_substrings_steps w _ acc)). unfold Py.range.
  apply elem_of_seqZ. lia.
Qed.

Lemma get_all_substrings_word (words : list str) (w : str) :
  In w words -> (2 <= length w)%nat ->
  w ∈ ProcessData.get_all_substrings words.
Proof.
  unfold ProcessData.get_all_substrings. generalize (∅ : gset str).
  induction words as [|w0 words IH]; intros acc Hin Hlen; [destruct Hin|].
  simpl. destruct Hin as [->|Hin].
  - clear IH. generalize (word_substrings_self acc w Hlen).
    generalize (ProcessData.word_substrings acc w).
    induction words as [|w1 words IH]; intros acc' H; [exact H|].
    simpl. apply IH. by apply word_substrings_keeps.
  - by apply IH.
Qed.

(** Appending a record under every affix of a set. *)
Lemma append_records_lookup (record : LineRecord) (data : Index) (subs : gset str) (s : str) :
  set_fold (ProcessData.append_record record) data subs !! s =
  if decide (s ∈ subs) then Some (ht_get data s ++ [record]) else data !! s.
Proof.
  revert s.
  pose (P := fun (d : Index) (X : gset str) => forall s : str,
       d !! s = if decide (s ∈ X) then Some (ht_get data s ++ [record])
                else data !! s).
  apply (set_fold_ind_L P); unfold P; clear P.
  - intros s. by rewrite decide_False by set_solver.
  - intros x X r Hx IH s. unfold ProcessData.append_record.
    destruct (decide (s = x)) as [->|Hne].
    + rewrite lookup_insert_eq. rewrite decide_True by set_solver.
      unfold ht_get. rewrite IH. by rewrite decide_False by assumption.
    + rewrite lookup_insert_ne by congruence. rewrite IH.
      destruct (decide (s ∈ X)).
      * by rewrite decide_True by set_solver.
      * rewrite decide_False; [done|].
        intros [Heq%elem_of_singleton|Hin]%elem_of_union;
          [congruence | contradiction].
Qed.

Lemma process_line_keeps filename data i line key (record : LineRecord) :
  has_record data key record ->
  has_record (ProcessData.process_line filename data i line) key record.
Proof.
  intros (records & Hk & Hin). unfold ProcessData.process_line. cbv zeta.
  destruct (Py.nonempty _); [|by exists records].
  unfold has_record. rewrite append_records_lookup.
  destruct (decide _); [|by exists records].
  eexists. split; [reflexivity|]. unfold ht_get. rewrite Hk. simpl.
  apply elem_of_app. by left.
Qed.

Lemma process_line_adds filename data i line (w : str) :
  In w (Py.split (ProcessData.remove_punctuation (Py.strip line))) ->
  (2 <= length w)%nat ->
  has_record (ProcessData.process_line filename data i line) w
    (line, Z.of_nat i + 1, ProcessData.source_of filename).
Proof.
  intros Hin Hlen. unfold ProcessData.process_line. cbv zeta.
  destruct (Py.nonempty _) eqn:Hclean.
  - unfold has_record. rewrite append_records_lookup.
    rewrite decide_True by by apply get_all_substrings_word.
    eexists. split; [reflexivity|]. apply elem_of_app. right.
    by apply list_elem_of_singleton.
  - destruct (ProcessData.remove_punctuation (Py.strip line));
      [destruct Hin | discriminate].
Qed.

Lemma process_from_keeps filename lines :
  forall data i key (record : LineRecord),
  has_record data key record ->
  has_record (ProcessData.process_from filename data i lines) key record.
Proof.
  induction lines as [|line lines IH]; intros data i key record H; [exact H|].
  simpl. apply IH. by apply process_line_keeps.
Qed.

Lemma process_from_adds filename lines : forall data (i0 i : nat) line (w : str),
  lines !! i = Some line ->
  In w (Py.split (ProcessData.remove_punctuation (Py.strip line))) ->
  (2 <= length w)%nat ->
  has_record (ProcessData.process_from filename data i0 lines) w
    (line, Z.of_nat (i0 + i) + 1, ProcessData.source_of filename).
Proof.
  induction lines as [|l lines IH]; intros data i0 i line w Hi Hin Hlen;
    [discriminate|].
  destruct i as [|i]; simpl in *.
  - injection Hi as ->. apply process_from_keeps.
    replace (i0 + 0)%nat with i0 by lia. by apply process_line_adds.
  - replace (i0 + S i)%nat with (S i0 + i)%nat by lia. by apply IH.
Qed.

(** C5: every complete word [w] of length at least 2 of a cleaned
    line is a key of the index the builder produces, and the entry of [w]
    holds the record of that line (its text, its 1-based number, the
    source). *)
Theorem complete_words_are_keys (data : Index) (lines : list str)
    (filename : str) (i : nat) (line w : str) :
  lines !! i = Some line ->
  In w (Py.split (ProcessData.remove_punctuation (Py.strip line))) ->
  (2 <= length w)%nat ->
  exists records,
    ProcessData.process data lines filename !! w = Some records /\
    (line, Z.of_nat i + 1, ProcessData.source_of filename) ∈ records.
Proof.
  intros Hi Hin Hlen.
  apply (process_from_adds filename lines data 0 i line w Hi Hin Hlen).
Qed.

Lemma complete_words_are_keys_witness :
  exists records,
    ProcessData.process ∅ [lit "The Quick Brown Fox"] (lit "a.txt")
      !! lit "quick" = Some records /\
    (lit "The Quick Brown Fox", 1, lit "a.txt") ∈ records.
Proof.
  apply (complete_words_are_keys ∅ [lit "The Quick Brown Fox"] (lit "a.txt")
           0 (lit "The Quick Brown Fox") (lit "quick")).
  - reflexivity.
  - vm_compute. right. left. reflexivity.
  - vm_compute. lia.
Defined.

(** ** Deletion candidates *)

(** Every candidate of [delete_char] is the deletion at some position of
    the scan, accepted by the index, with the score of that position. *)
Lemma delete_loop_elements ht sentence positions : forall valid (c : str * Z),
  In c (AutoComplete.delete_loop ht sentence positions valid) ->
  In c valid \/
  exists i, In i positions /\
    in_ht ht (AutoComplete.deleted sentence i) = true /\
    c = (AutoComplete.deleted sentence i, AutoComplete.delete_score sentence i).
Proof.
  induction positions as [|i rest IH]; intros valid c; simpl; [auto|].
  destruct (in_ht ht (AutoComplete.deleted sentence i)) eqn:Hin.
  - destruct (_ =? 5)%nat.
    + intros [H|[<-|[]]]%in_app_or; [auto|]. right. exists i. auto.
    + intros [[H|[<-|[]]]%in_app_or|(j & Hj & H)]%IH; [auto| |].
      * right. exists i. auto.
      * right. exists j. auto.
  - intros [H|(j & Hj & H)]%IH; [auto|]. right. exists j. auto.
Qed.

Lemma delete_char_elements ht sentence (c : str * Z) :
  In c (AutoComplete.delete_char ht sentence) ->
  exists i, 0 <= i <= Z.of_nat (length sentence) /\
    in_ht ht (AutoComplete.deleted sentence i) = true /\
    c = (AutoComplete.deleted sentence i, AutoComplete.delete_score sentence i).
Proof.
  intros [[]|(i & Hi & H)]%delete_loop_elements. exists i. split; [|exact H].
  unfold Py.range_down in Hi. apply in_rev, list_elem_of_In in Hi.
  apply elem_of_seqZ in Hi. lia.
Qed.

(** C8: for a fixed token, when the deletions at positions [i] and
    [i'] with [i < i'] are both candidates of [delete_char], the score at
    [i] is not greater than the score at [i']; the score at a position is
    [(len(token) - 1) * 2 - max(10 - 2*i, 2)]. *)
Theorem deletion_score_monotone (ht : Index) (sentence : str) (i i' : Z) :
  i < i' ->
  In (AutoComplete.deleted sentence i, AutoComplete.delete_score sentence i)
     (AutoComplete.delete_char ht sentence) ->
  In (AutoComplete.deleted sentence i', AutoComplete.delete_score sentence i')
     (AutoComplete.delete_char ht sentence) ->
  AutoComplete.delete_score sentence i <= AutoComplete.delete_score sentence i' /\
  AutoComplete.delete_score sentence i
    = (Z.of_nat (length sentence) - 1) * 2 - Z.max (10 - 2 * i) 2.
Proof.
  intros Hlt _ _. unfold AutoComplete.delete_score. lia.
Qed.

Lemma deletion_score_monotone_witness :
  AutoComplete.delete_score (lit "abc") 1
    <= AutoComplete.delete_score (lit "abc") 2 /\
  AutoComplete.delete_score (lit "abc") 1
    = (Z.of_nat (length (lit "abc")) - 1) * 2 - Z.max (10 - 2 * 1) 2.
Proof.
  apply (deletion_score_monotone
           (ProcessData.process ∅ [lit "ab ac"] (lit "a.txt")) (lit "abc") 1 2).
  - lia.
  - vm_compute. right. left. reflexivity.
  - vm_compute. left. reflexivity.
Defined.

(** ** Substitution candidates never fail on a query token *)

Lemma tokenize_token user_input w :
  In w (AutoComplete.tokenize user_input) -> is_token w.
Proof. apply findall_token. Qed.

Lemma split_token w : is_token w -> Py.split w = [w].
Proof.
  intros [Hne Hlow]. unfold Py.split, Py.runs.
  rewrite chunks_word by by apply lower_no_space.
  simpl. by destruct w.
Qed.

Lemma getitem_ok (s : str) (pos : Z) :
  - Z.of_nat (length s) <= pos < Z.of_nat (length s) ->
  exists c, Py.getitem s pos = Ok c.
Proof.
  intros H. unfold Py.getitem. cbv zeta.
  set (i' := if pos <? 0 then pos + Z.of_nat (length s) else pos).
  assert (Hi : 0 <= i' < Z.of_nat (length s)).
  { unfold i'. destruct (Z.ltb_spec pos 0); lia. }
  destruct (Z.leb_spec 0 i'); [|lia].
  destruct (Z.ltb_spec i' (Z.of_nat (length s))); [|lia]. simpl.
  destruct (s !! Z.to_nat i') as [c|] eqn:E; [eauto|].
  apply lookup_ge_None in E. lia.
Qed.

Lemma replace_letters_ok ht subtext pos c letters :
  Py.getitem subtext pos = Ok c ->
  forall possible, exists possible',
    AutoComplete.replace_letters ht subtext pos letters possible = Ok possible'.
Proof.
  intros Hc. induction letters as [|char rest IH]; intros possible; simpl;
    [eauto|].
  rewrite Hc. simpl.
  destruct (bool_decide (char = c)); [apply IH|].
  destruct (in_ht ht _); [|apply IH].
  destruct (_ =? 5)%nat; [eauto | apply IH].
Qed.

Lemma replace_offsets_ok ht subtext end_word_index offsets :
  (forall i, In i offsets ->
     - Z.of_nat (length subtext) <= end_word_index - i
       < Z.of_nat (length subtext)) ->
  forall possible, exists possible',
    AutoComplete.replace_offsets ht subtext end_word_index offsets possible
    = Ok possible'.
Proof.
  induction offsets as [|i rest IH]; intros Hpos possible;
    cbn [AutoComplete.replace_offsets]; [eauto|].
  destruct (getitem_ok subtext (end_word_index - i)) as [c Hc];
    [apply Hpos; by left|].
  destruct (replace_letters_ok ht subtext _ c Py.ascii_lowercase Hc possible)
    as [possible' ->].
  cbn [mbind result_bind]. apply IH. intros j Hj. apply Hpos. by right.
Qed.

Lemma in_range_down n i : In i (Py.range_down n) -> 0 <= i <= Z.of_nat n.
Proof.
  unfold Py.range_down. intros Hi%in_rev%list_elem_of_In%elem_of_seqZ. lia.
Qed.

Lemma replace_char_token ht w :
  is_token w -> in_ht ht w = false ->
  exists candidates, AutoComplete.replace_char ht w = Ok candidates.
Proof.
  intros Htok Hout. unfold AutoComplete.replace_char,
    AutoComplete.has_multiple_mismatches,
    AutoComplete.find_mismatched_word_and_index.
  rewrite (split_token _ Htok). simpl. rewrite Hout. simpl.
  unfold AutoComplete.generate_possible_replacements.
  apply replace_offsets_ok. intros i Hi%in_range_down.
  destruct Htok as [Hne _]. destruct w; [congruence|]. simpl length in *. lia.
Qed.

Lemma mismatch_loop_known ht words n :
  (forall w, In w words -> in_ht ht w = true) ->
  AutoComplete.mismatch_loop ht words n = false.
Proof.
  induction words as [|w words IH]; intros H; simpl; [reflexivity|].
  rewrite (H w) by by left. apply IH. intros x Hx. apply H. by right.
Qed.

Lemma find_from_known ht words i :
  (forall w, In w words -> in_ht ht w = true) ->
  AutoComplete.find_from ht i words = None.
Proof.
  revert i. induction words as [|w words IH]; intros i H; simpl; [reflexivity|].
  rewrite (H w) by by left. apply IH. intros x Hx. apply H. by right.
Qed.

Lemma replace_char_all_known ht subtext :
  (forall w, In w (Py.split subtext) -> in_ht ht w = true) ->
  AutoComplete.replace_char ht subtext = Raise TypeError.
Proof.
  intros H. unfold AutoComplete.replace_char,
    AutoComplete.has_multiple_mismatches,
    AutoComplete.find_mismatched_word_and_index.
  by rewrite mismatch_loop_known, find_from_known.
Qed.

(** ** The engine returns *)

Lemma get_best_completions_token ht w :
  is_token w -> in_ht ht w = false ->
  exists candidates,
    AutoComplete.combining_list ht w = Ok candidates /\
    AutoComplete.get_best_completions ht w
    = Ok (AutoComplete.best_of candidates None []).
Proof.
  intros Htok Hout. unfold AutoComplete.get_best_completions,
    AutoComplete.combining_list.
  destruct (replace_char_token ht w Htok Hout) as [cands ->]. simpl. eauto.
Qed.

Lemma resolve_loop_ok ht user_words :
  (forall w, In w user_words -> is_token w) ->
  forall lines correct, exists resolved,
    AutoComplete.resolve_loop ht user_words lines correct = Ok resolved.
Proof.
  induction user_words as [|word rest IH]; intros Htok lines correct; simpl;
    [eauto|].
  assert (Hrest : forall w, In w rest -> is_token w)
    by (intros w Hw; apply Htok; by right).
  destruct (in_ht ht word) eqn:Hin; [by apply IH|].
  destruct (get_best_completions_token ht word) as (cands & _ & ->);
    [apply Htok; by left | assumption |].
  simpl. destruct (Py.nonempty _); [by apply IH | eauto].
Qed.

Lemma resolve_loop_length ht user_words : forall lines correct lines' correct',
  AutoComplete.resolve_loop ht user_words lines correct
    = Ok (Some (lines', correct')) ->
  length correct' = (length correct + length user_words)%nat.
Proof.
  induction user_words as [|word rest IH]; intros lines correct lines' correct';
    simpl.
  - intros [= _ <-]. lia.
  - destruct (in_ht ht word).
    + intros H%IH. rewrite H, length_app. simpl. lia.
    + destruct (AutoComplete.get_best_completions ht word) as [new_word|e];
        simpl; [|discriminate].
      destruct (Py.nonempty new_word); [|discriminate].
      intros H%IH. rewrite H, length_app. simpl. lia.
Qed.

Lemma check_from_ok user_input_words line_rest :
  user_input_words <> [] ->
  exists b, AutoComplete.check_from user_input_words line_rest = Ok b.
Proof.
  intros Hne. induction line_rest as [|word rest IH]; simpl; [eauto|].
  destruct user_input_words as [|first others]; [congruence|].
  destruct (Py.contains first word); [|exact IH].
  destruct (AutoComplete.while_scan _ _ _); [eauto|].
  destruct (_ =? _)%nat; [eauto | exact IH].
Qed.

Lemma filter_lines_ok correct lines :
  correct <> [] ->
  exists kept, AutoComplete.filter_lines correct lines = Ok kept.
Proof.
  intros Hne. induction lines as [|line rest [kept IH]]; simpl; [eauto|].
  unfold AutoComplete.check_if_input_in_line.
  destruct (check_from_ok correct (AutoComplete.tokenize line.1.1) Hne)
    as [b ->].
  simpl. rewrite IH. simpl. eauto.
Qed.

Lemma final_lines_ok ht user_input :
  exists final, AutoComplete.final_lines ht user_input = Ok final.
Proof.
  unfold AutoComplete.final_lines. cbv zeta.
  destruct (resolve_loop_ok ht (AutoComplete.tokenize user_input)
              (tokenize_token user_input) ∅ []) as [resolved Hres].
  rewrite Hres. simpl.
  destruct resolved as [[lines correct]|]; [|eauto].
  destruct (Nat.ltb_spec 1 (length (AutoComplete.tokenize user_input)));
    [|eauto].
  apply resolve_loop_length in Hres. simpl in Hres.
  destruct (filter_lines_ok correct (elements lines)) as [kept ->];
    [|simpl; eauto].
  destruct correct; [simpl in Hres; lia | congruence].
Qed.

Lemma draw_length {A} rnd : forall (k j : nat) (pool : list A),
  (k <= length pool)%nat -> length (Py.draw rnd j pool k) = k.
Proof.
  induction k as [|k IH]; intros j pool Hk; simpl; [reflexivity|].
  assert (Hi : (rnd j mod length pool < length pool)%nat)
    by (apply Nat.mod_upper_bound; lia).
  destruct (lookup_lt_is_Some_2 pool _ Hi) as [x ->].
  simpl. f_equal. apply IH.
  rewrite length_app, length_take, length_drop. lia.
Qed.

Lemma draw_subset {A} rnd : forall (k j : nat) (pool : list A) x,
  In x (Py.draw rnd j pool k) -> In x pool.
Proof.
  induction k as [|k IH]; intros j pool x; simpl; [tauto|].
  destruct (pool !! (rnd j mod length pool)%nat) as [y|] eqn:E; [|intros []].
  intros [<-|H%IH].
  - apply list_elem_of_In. eapply list_elem_of_lookup_2, E.
  - apply in_app_or in H as [H|H].
    + apply list_elem_of_In. apply list_elem_of_In in H.
      eapply subseteq_take, H.
    + apply list_elem_of_In. apply list_elem_of_In in H.
      eapply subseteq_drop, H.
Qed.

Lemma sample_ok {A} rnd (population : list A) k :
  0 <= k <= Z.of_nat (length population) ->
  exists chosen, Py.sample rnd population k = Ok chosen /\
    Z.of_nat (length chosen) = k /\
    forall x, In x chosen -> In x population.
Proof.
  intros Hk. unfold Py.sample.
  destruct (Z.ltb_spec k 0); [lia|].
  destruct (Z.ltb_spec (Z.of_nat (length population)) k); [lia|]. simpl.
  eexists. split; [reflexivity|]. split.
  - rewrite draw_length; lia.
  - apply draw_subset.
Qed.

Lemma create_auto_complete_length lines :
  length (AutoComplete.create_auto_complete lines) = length lines.
Proof. apply length_map. Qed.

(** X25. For every query and every positive limit [k] the engine returns,
    without raising, a list of length at most [k]: as many results as the
    lines its own candidate stage ([final_lines], the running set after
    the filter) leaves when these are at most [k], and exactly [k]
    otherwise. *)
Theorem result_cardinality (rnd : nat -> nat) (ht : Index) (user_input : str)
    (k : Z) :
  0 < k ->
  exists results,
    AutoComplete.get_best_k_completion rnd ht user_input k = Ok results /\
    Z.of_nat (length results) <= k /\
    forall final, AutoComplete.final_lines ht user_input = Ok (Some final) ->
      (Z.of_nat (length final) <= k -> length results = length final) /\
      (k < Z.of_nat (length final) -> Z.of_nat (length results) = k).
Proof.
  intros Hk. unfold AutoComplete.get_best_k_completion.
  destruct (final_lines_ok ht user_input) as [final ->]. simpl.
  destruct final as [final|].
  2:{ exists []. split; [reflexivity|]. split; [simpl; lia|]. discriminate. }
  destruct (Z.gtb_spec (Z.of_nat (length final)) k) as [Hgt|Hle].
  - destruct (sample_ok rnd final k) as (chosen & -> & Hlen & _); [lia|].
    simpl. eexists. split; [reflexivity|].
    rewrite create_auto_complete_length. split; [lia|].
    intros ? [= <-]. split; lia.
  - eexists. split; [reflexivity|].
    rewrite create_auto_complete_length. split; [lia|].
    intros ? [= <-]. split; [reflexivity | lia].
Qed.

Lemma result_cardinality_witness :
  exists results,
    AutoComplete.get_best_k_completion (fun _ => 0%nat)
      (ProcessData.process ∅ [lit "big fox"; lit "red fox"; lit "fox"]
         (lit "a.txt"))
      (lit "fox") 2 = Ok results /\
    Z.of_nat (length results) <= 2 /\
    forall final,
      AutoComplete.final_lines
        (ProcessData.process ∅ [lit "big fox"; lit "red fox"; lit "fox"]
           (lit "a.txt"))
        (lit "fox") = Ok (Some final) ->
      (Z.of_nat (length final) <= 2 -> length results = length final) /\
      (2 < Z.of_nat (length final) -> Z.of_nat (length results) = 2).
Proof.
  apply (result_cardinality (fun _ => 0%nat)
           (ProcessData.process ∅ [lit "big fox"; lit "red fox"; lit "fox"]
              (lit "a.txt"))
           (lit "fox") 2).
  lia.
Defined.

(** ** Unresolvable tokens *)

Lemma resolve_loop_unresolvable ht t user_words :
  (forall w, In w user_words -> is_token w) ->
  In t user_words -> in_ht ht t = false ->
  AutoComplete.combining_list ht t = Ok [] ->
  forall lines correct,
    AutoComplete.resolve_loop ht user_words lines correct = Ok None.
Proof.
  intros Htok Hin Hout Hpool.
  induction user_words as [|word rest IH]; intros lines correct;
    [destruct Hin|].
  assert (Hrest : forall w, In w rest -> is_token w)
    by (intros w Hw; apply Htok; by right).
  simpl. destruct (in_ht ht word) eqn:Hword.
  - destruct Hin as [->|Hin]; [congruence|]. by apply IH.
  - destruct (get_best_completions_token ht word) as (cands & Hc & ->);
      [apply Htok; by left | assumption |].
    simpl. destruct Hin as [->|Hin].
    + rewrite Hpool in Hc. injection Hc as <-. reflexivity.
    + destruct (Py.nonempty _); [by apply IH | reflexivity].
Qed.

(** C9: when a token of the query is absent from the index and the
    pooled generators (substitution, deletion, insertion) give it no
    candidate, the engine returns the empty list and raises nothing. *)
Theorem unresolvable_token_gives_empty (rnd : nat -> nat) (ht : Index)
    (user_input : str) (k : Z) (t : str) :
  In t (AutoComplete.tokenize user_input) ->
  in_ht ht t = false ->
  AutoComplete.combining_list ht t = Ok [] ->
  AutoComplete.get_best_k_completion rnd ht user_input k = Ok [].
Proof.
  intros Hin Hout Hpool.
  unfold AutoComplete.get_best_k_completion, AutoComplete.final_lines.
  cbv zeta.
  rewrite (resolve_loop_unresolvable ht t _ (tokenize_token user_input)
             Hin Hout Hpool).
  reflexivity.
Qed.

Lemma unresolvable_token_gives_empty_witness :
  AutoComplete.get_best_k_completion (fun _ => 0%nat)
    (ProcessData.process ∅ [lit "The Quick Brown Fox"] (lit "a.txt"))
    (lit "quick zzzz") 5 = Ok [].
Proof.
  apply (unresolvable_token_gives_empty (fun _ => 0%nat)
           (ProcessData.process ∅ [lit "The Quick Brown Fox"] (lit "a.txt"))
           (lit "quick zzzz") 5 (lit "zzzz")).
  - vm_compute. right. left. reflexivity.
  - vm_compute. reflexivity.
  - vm_compute. reflexivity.
Defined.

(** ** The failing branch of [replace_char] *)

Lemma sample_not_type_error {A} rnd (population : list A) k :
  Py.sample rnd population k <> Raise TypeError.
Proof. unfold Py.sample. destruct (_ || _); discriminate. Qed.

(** C10: [replace_char] fails (unpacking [None]) when every
    whitespace-delimited token of its argument is a key of the index;
    the engine calls it only on a query token that is not a key, which is
    then the one token of the argument and is unknown, so the call returns
    a candidate list, and the engine never raises that error. *)
Theorem replace_char_failure_unreachable (ht : Index) :
  (forall subtext,
     (forall w, In w (Py.split subtext) -> in_ht ht w = true) ->
     AutoComplete.find_mismatched_word_and_index ht subtext = None /\
     AutoComplete.replace_char ht subtext = Raise TypeError) /\
  (forall user_input word,
     In word (AutoComplete.tokenize user_input) -> in_ht ht word = false ->
     Py.split word = [word] /\
     exists candidates, AutoComplete.replace_char ht word = Ok candidates) /\
  (forall rnd user_input k,
     AutoComplete.get_best_k_completion rnd ht user_input k
     <> Raise TypeError).
Proof.
  split; [|split].
  - intros subtext H. split; [|by apply replace_char_all_known].
    by apply find_from_known.
  - intros user_input word Hin%tokenize_token Hout. split.
    + by apply split_token.
    + by apply replace_char_token.
  - intros rnd user_input k. unfold AutoComplete.get_best_k_completion.
    destruct (final_lines_ok ht user_input) as [final ->]. simpl.
    destruct final as [final|]; [|discriminate].
    destruct (_ >? _); [|discriminate].
    destruct (Py.sample rnd final k) eqn:E; simpl; [discriminate|].
    intros [= ->]. by apply sample_not_type_error in E.
Qed.

(** ** The ordered-occurrence filter *)

Lemma starts_with_spec u : forall w,
  Py.starts_with u w = true <-> exists after, w = u ++ after.
Proof.
  induction u as [|x u IH]; intros w; simpl.
  - split; [eauto | reflexivity].
  - destruct w as [|y w].
    + split; [discriminate | intros [? [=]]].
    + rewrite andb_true_iff, bool_decide_eq_true, IH. split.
      * intros [-> [after ->]]. eauto.
      * intros [after [= -> ->]]. eauto.
Qed.

Lemma contains_spec u : forall w,
  Py.contains u w = true <-> substring u w.
Proof.
  unfold substring.
  induction w as [|y w IH]; simpl; rewrite orb_true_iff, starts_with_spec.
  - split.
    + intros [[after H]|[=]]. exists [], after. exact H.
    + intros (before & after & H). left.
      destruct before; [eauto|discriminate].
  - rewrite IH. split.
    + intros [[after H]|(before & after & ->)].
      * exists [], after. exact H.
      * exists (y :: before), after. reflexivity.
    + intros (before & after & H). destruct before as [|b before].
      * left. eauto.
      * right. injection H as -> ->. eauto.
Qed.

(** A scan that consumes every input word found each one in the line
    word at the same offset. *)
Lemma while_scan_end input_rest : forall line_rest j0 j,
  AutoComplete.while_scan input_rest line_rest j0 = AutoComplete.ScanEnd j ->
  (j <= j0 + length input_rest)%nat /\
  (j = (j0 + length input_rest)%nat -> run_at input_rest line_rest 0).
Proof.
  induction input_rest as [|u input_rest IH]; intros line_rest j0 j; simpl.
  - intros [= <-]. split; [lia|]. intros _ m x Hm. discriminate.
  - destruct line_rest as [|w line_rest]; [intros [= <-]; split; lia|].
    destruct (Py.contains u w) eqn:Hc; [|discriminate].
    intros [Hle Hrun]%IH. split; [lia|].
    intros Hj m x Hm. destruct m as [|m]; simpl in *.
    + injection Hm as <-. exists w. split; [reflexivity|].
      by apply contains_spec.
    + apply Hrun; [lia | exact Hm].
Qed.

Lemma check_from_true user_input_words : forall line_rest,
  AutoComplete.check_from user_input_words line_rest = Ok true ->
  contiguous_run user_input_words line_rest.
Proof.
  induction line_rest as [|word rest IH]; simpl; [discriminate|].
  destruct user_input_words as [|first others] eqn:Hu; [discriminate|].
  rewrite <- Hu in *.
  assert (Hshift : contiguous_run user_input_words rest ->
                   contiguous_run user_input_words (word :: rest)).
  { intros [i Hi]. exists (S i). intros j u Hj. apply (Hi j u Hj). }
  destruct (Py.contains first word); [|intros H; by apply Hshift, IH].
  destruct (AutoComplete.while_scan user_input_words (word :: rest) 0)
    as [|j] eqn:Hscan; [discriminate|].
  destruct (Nat.eqb_spec j (length user_input_words)) as [->|Hne];
    [|intros H; by apply Hshift, IH].
  intros _. exists 0%nat.
  apply while_scan_end in Hscan as [_ Hrun]. by apply Hrun.
Qed.

Lemma filter_lines_kept correct lines : forall kept (line : LineRecord),
  AutoComplete.filter_lines correct lines = Ok kept ->
  In line kept ->
  In line lines /\
  AutoComplete.check_if_input_in_line correct
    (AutoComplete.tokenize line.1.1) = Ok true.
Proof.
  induction lines as [|l lines IH]; intros kept line; simpl.
  - intros [= <-] [].
  - destruct (AutoComplete.check_if_input_in_line correct _) as [keep|e] eqn:Hk;
      simpl; [|discriminate].
    destruct (AutoComplete.filter_lines correct lines) as [kept'|e] eqn:Hf;
      simpl; [|discriminate].
    intros [= <-] Hin. destruct keep.
    + destruct Hin as [<-|Hin]; [split; [by left | exact Hk]|].
      destruct (IH kept' line eq_refl Hin). split; [by right | assumption].
    + destruct (IH kept' line eq_refl Hin). split; [by right | assumption].
Qed.

Lemma create_auto_complete_elements lines r :
  In r (AutoComplete.create_auto_complete lines) ->
  exists line, In line lines /\ r = completion_of line.
Proof.
  unfold AutoComplete.create_auto_complete. intros (line & <- & Hin)%in_map_iff.
  exists line. split; [assumption | reflexivity].
Qed.

Lemma completion_of_inj (a b : LineRecord) :
  completion_of a = completion_of b -> a = b.
Proof.
  destruct a as [[t n] f], b as [[t' n'] f']. unfold completion_of. simpl.
  congruence.
Qed.

(** The results of the engine come from the lines left by the filter. *)
Lemma results_from_final rnd ht user_input k results r :
  AutoComplete.get_best_k_completion rnd ht user_input k = Ok results ->
  In r results ->
  exists final line,
    AutoComplete.final_lines ht user_input = Ok (Some final) /\
    In line final /\ r = completion_of line.
Proof.
  unfold AutoComplete.get_best_k_completion.
  destruct (AutoComplete.final_lines ht user_input) as [[final|]|e]; simpl;
    [| intros [= <-] [] | discriminate].
  destruct (_ >? _).
  - destruct (Py.sample rnd final k) as [chosen|e] eqn:Hs; simpl;
      [|discriminate].
    intros [= <-] (line & Hin & ->)%create_auto_complete_elements.
    exists final, line. split; [reflexivity|]. split; [|reflexivity].
    unfold Py.sample in Hs. destruct (_ || _); [discriminate|].
    injection Hs as <-. by apply draw_subset in Hin.
  - intros [= <-] (line & Hin & ->)%create_auto_complete_elements.
    exists final, line. auto.
Qed.

(** C6: for a query of two or more tokens, every returned line has
    a contiguous run of line tokens in which the i-th resolved query token
    is a substring of the i-th line token of the run; and a line of the
    candidate set without such a run is not returned. *)
Theorem ordered_occurrence (rnd : nat -> nat) (ht : Index)
    (user_input : str) (k : Z) (results : list AutoCompleteData) :
  (2 <= length (AutoComplete.tokenize user_input))%nat ->
  AutoComplete.get_best_k_completion rnd ht user_input k = Ok results ->
  results = [] \/
  exists lines resolved,
    AutoComplete.resolve_loop ht (AutoComplete.tokenize user_input) ∅ []
      = Ok (Some (lines, resolved)) /\
    length resolved = length (AutoComplete.tokenize user_input) /\
    (forall r, In r results ->
       exists line, line ∈ lines /\ r = completion_of line /\
         contiguous_run resolved (AutoComplete.tokenize line.1.1)) /\
    (forall line, line ∈ lines ->
       ~ contiguous_run resolved (AutoComplete.tokenize line.1.1) ->
       ~ In (completion_of line) results).
Proof.
  intros Hlen Hres.
  destruct results as [|r0 results']; [by left|]. right.
  destruct (results_from_final _ _ _ _ _ r0 Hres (or_introl eq_refl))
    as (final & _ & Hfinal & _).
  unfold AutoComplete.final_lines in Hfinal. cbv zeta in Hfinal.
  destruct (AutoComplete.resolve_loop ht _ ∅ [])
    as [[[lines resolved]|]|e] eqn:Hloop; simpl in Hfinal; try discriminate.
  destruct (Nat.ltb_spec 1 (length (AutoComplete.tokenize user_input)));
    [|lia].
  destruct (AutoComplete.filter_lines resolved (elements lines))
    as [kept|e] eqn:Hkept; simpl in Hfinal; [|discriminate].
  injection Hfinal as <-.
  assert (Hsound : forall r, In r (r0 :: results') ->
    exists line, line ∈ lines /\ r = completion_of line /\
      contiguous_run resolved (AutoComplete.tokenize line.1.1)).
  { intros r Hr.
    destruct (results_from_final _ _ _ _ _ r Hres Hr)
      as (final & line & Hfinal & Hin & ->).
    unfold AutoComplete.final_lines in Hfinal. cbv zeta in Hfinal.
    rewrite Hloop in Hfinal. simpl in Hfinal.
    destruct (Nat.ltb_spec 1 (length (AutoComplete.tokenize user_input)));
      [|lia].
    rewrite Hkept in Hfinal. simpl in Hfinal. injection Hfinal as <-.
    destruct (filter_lines_kept _ _ _ _ Hkept Hin) as [Hel Hcheck].
    exists line. split; [|split; [reflexivity|]].
    - by apply elem_of_elements, list_elem_of_In.
    - by apply check_from_true. }
  exists lines, resolved. split; [reflexivity|]. split.
  - apply resolve_loop_length in Hloop. exact Hloop.
  - split; [exact Hsound|].
    intros line _ Hno Hin. destruct (Hsound _ Hin) as (line' & _ & Heq & Hrun).
    apply completion_of_inj in Heq as <-. contradiction.
Qed.

Lemma ordered_occurrence_witness :
  [completion_of (lit "The Quick Brown Fox", 1, lit "a.txt")] = [] \/
  exists lines resolved,
    AutoComplete.resolve_loop
      (ProcessData.process ∅ [lit "The Quick Brown Fox"; lit "fox brown trick"]
         (lit "a.txt"))
      (AutoComplete.tokenize (lit "brown fox")) ∅ []
      = Ok (Some (lines, resolved)) /\
    length resolved = length (AutoComplete.tokenize (lit "brown fox")) /\
    (forall r,
       In r [completion_of (lit "The Quick Brown Fox", 1, lit "a.txt")] ->
       exists line, line ∈ lines /\ r = completion_of line /\
         contiguous_run resolved (AutoComplete.tokenize line.1.1)) /\
    (forall line, line ∈ lines ->
       ~ contiguous_run resolved (AutoComplete.tokenize line.1.1) ->
       ~ In (completion_of line)
           [completion_of (lit "The Quick Brown Fox", 1, lit "a.txt")]).
Proof.
  apply (ordered_occurrence (fun _ => 0%nat)
           (ProcessData.process ∅
              [lit "The Quick Brown Fox"; lit "fox brown trick"] (lit "a.txt"))
           (lit "brown fox") 5).
  - vm_compute. lia.
  - vm_compute. reflexivity.
Defined.

(** ** Where the code departs from its documentation *)

Lemma one_edit_length a b :
  one_edit a b ->
  (length b = S (length a) \/ length a = S (length b) \/ length a = length b).
Proof.
  intros []; rewrite !length_app; simpl; lia.
Qed.

(** C1, at the corpus line ["xaxyz"] and the token ["xy"], which
    is not a key: the substitution generator visits the position before
    the first character, which Python reads as the last one, and accepts
    ["xaxy"], two insertions away from the token. *)
Theorem substitution_accepts_two_edits :
  let ht := ProcessData.process ∅ [lit "xaxyz"] (lit "a.txt") in
  In (lit "xy") (AutoComplete.tokenize (lit "xy")) /\
  in_ht ht (lit "xy") = false /\
  AutoComplete.replace_char ht (lit "xy")
    = Ok [(lit "xaxy", -4); (lit "xa", -2)] /\
  AutoComplete.combining_list ht (lit "xy")
    = Ok [(lit "xaxy", -4); (lit "xa", -2); (lit "xyz", -2)] /\
  ~ one_edit (lit "xy") (lit "xaxy").
Proof.
  cbv zeta. split; [vm_compute; by left|].
  split; [vm_compute; reflexivity|].
  split; [vm_compute; reflexivity|].
  split; [vm_compute; reflexivity|].
  intros H%one_edit_length. vm_compute in H. lia.
Qed.

(** C2, at the corpus ["aa"], ["bb"], ["xaay xbby cc"] and the
    query ["aa bb cc"], whose tokens are all keys: the running set is empty
    after ["bb"], the test for the first token takes it for not started,
    and the line of ["cc"] is returned although the entry of ["aa"] does
    not hold it. *)
Theorem empty_intersection_restarts (rnd : nat -> nat) :
  let ht := ProcessData.process ∅
              [lit "aa"; lit "bb"; lit "xaay xbby cc"] (lit "a.txt") in
  AutoComplete.tokenize (lit "aa bb cc") = [lit "aa"; lit "bb"; lit "cc"] /\
  in_ht ht (lit "aa") = true /\ in_ht ht (lit "bb") = true /\
  in_ht ht (lit "cc") = true /\
  AutoComplete.get_best_k_completion rnd ht (lit "aa bb cc") 5
    = Ok [completion_of (lit "xaay xbby cc", 3, lit "a.txt")] /\
  ~ In (lit "xaay xbby cc", 3, lit "a.txt") (ht_get ht (lit "aa")) /\
  (list_to_set (ht_get ht (lit "aa")) ∩ list_to_set (ht_get ht (lit "bb"))
     ∩ list_to_set (ht_get ht (lit "cc")) : gset LineRecord) = ∅.
Proof.
  cbv zeta. repeat split; try (vm_compute; reflexivity).
  vm_compute. intros [H|[]]. discriminate.
Qed.

(** C3, at the corpus line ["cb db eb fb gb ac"] and the token
    ["ab"]: five candidates are found at the first position, the [break]
    leaves the loop over the letters only, and the scan of the next
    position adds a sixth. *)
Theorem substitution_returns_six :
  let ht := ProcessData.process ∅ [lit "cb db eb fb gb ac"] (lit "a.txt") in
  in_ht ht (lit "ab") = false /\
  AutoComplete.replace_char ht (lit "ab")
    = Ok [(lit "cb", -3); (lit "db", -3); (lit "eb", -3); (lit "fb", -3);
          (lit "gb", -3); (lit "ac", -2)].
Proof. cbv zeta. split; vm_compute; reflexivity. Qed.

(** * Further properties of the index builder *)

Lemma bound_inside n (j : nat) : (j <= n)%nat -> Py.bound n (Z.of_nat j) = j.
Proof.
  intros H. unfold Py.bound. destruct (Z.ltb_spec (Z.of_nat j) 0); lia.
Qed.

Lemma bound_from_end n (j : nat) :
  (1 <= j <= n)%nat -> Py.bound n (- Z.of_nat j) = (n - j)%nat.
Proof.
  intros H. unfold Py.bound. destruct (Z.ltb_spec (- Z.of_nat j) 0); lia.
Qed.

Lemma slice_prefix (w : str) (j : nat) :
  (j <= length w)%nat -> Py.slice w 0 (Z.of_nat j) = take j w.
Proof.
  intros H. unfold Py.slice. by rewrite bound_zero, bound_inside.
Qed.

Lemma slice_suffix (w : str) (j : nat) :
  (1 <= j <= length w)%nat ->
  Py.slice w (- Z.of_nat j) (Z.of_nat (length w)) = drop (length w - j) w.
Proof.
  intros H. unfold Py.slice.
  by rewrite bound_from_end, bound_length, firstn_all.
Qed.

Lemma word_substrings_elements (w : str) (js : list Z) :
  forall (acc : gset str) (x : str),
  x ∈ foldl (fun acc j => (acc ∪ {[ Py.slice w 0 j ]})
                            ∪ {[ Py.slice w (- j) (Z.of_nat (length w)) ]})
            acc js <->
  x ∈ acc \/
  exists j, j ∈ js /\
    (x = Py.slice w 0 j \/ x = Py.slice w (- j) (Z.of_nat (length w))).
Proof.
  induction js as [|j0 js IH]; intros acc x; simpl.
  - split; [auto|]. intros [H|(j & Hj & _)]; [exact H|].
    by apply elem_of_nil in Hj.
  - rewrite IH, !elem_of_union, !elem_of_singleton. split.
    + intros [[[H|H]|H]|(j & Hj & H)].
      * by left.
      * right. exists j0. split; [apply elem_of_cons; by left | by left].
      * right. exists j0. split; [apply elem_of_cons; by left | by right].
      * right. exists j. split; [apply elem_of_cons; by right | exact H].
    + intros [H|(j & [->|Hj]%elem_of_cons & H)].
      * left. left. by left.
      * destruct H as [H|H]; left; [left; by right | by right].
      * right. exists j. auto.
Qed.

Lemma word_substrings_affix acc (w x : str) :
  x ∈ ProcessData.word_substrings acc w <-> x ∈ acc \/ affix x w.
Proof.
  unfold ProcessData.word_substrings. cbv zeta.
  rewrite word_substrings_elements. unfold Py.range, affix.
  split; (intros [H|H]; [by left | right]).
  - destruct H as (j & Hj%elem_of_seqZ & H).
    exists (Z.to_nat j). split; [lia|].
    rewrite <- (slice_prefix w (Z.to_nat j)) by lia.
    rewrite <- (slice_suffix w (Z.to_nat j)) by lia.
    by rewrite Z2Nat.id by lia.
  - destruct H as (j & Hj & H). exists (Z.of_nat j).
    split; [apply elem_of_seqZ; lia|].
    rewrite slice_prefix, slice_suffix by lia. exact H.
Qed.

Lemma get_all_substrings_elements (words : list str) (x : str) :
  x ∈ ProcessData.get_all_substrings words <->
  exists w, In w words /\ affix x w.
Proof.
  unfold ProcessData.get_all_substrings.
  assert (H : forall acc : gset str,
    x ∈ foldl ProcessData.word_substrings acc words <->
    x ∈ acc \/ exists w, In w words /\ affix x w).
  { induction words as [|w0 words IH]; intros acc; simpl.
    - split; [auto | intros [H|(w & [] & _)]; exact H].
    - rewrite IH, word_substrings_affix. split.
      + intros [[H|H]|(w & Hw & H)]; [by left | |]; right.
        * exists w0. auto.
        * exists w. auto.
      + intros [H|(w & [->|Hw] & H)]; [left; by left | left; by right |].
        right. exists w. auto. }
  rewrite H. split; [|auto]. intros [Hx|Hx]; [|exact Hx].
  by apply not_elem_of_empty in Hx.
Qed.

(** X1. [get_all_substrings] returns exactly the prefixes and the suffixes
    of length 2 to [len(w)] of the words: nothing shorter, and no inner
    substring. *)
Theorem get_all_substrings_exact (words : list str) (x : str) :
  x ∈ ProcessData.get_all_substrings words <->
  exists w, In w words /\ affix x w.
Proof. exact (get_all_substrings_elements words x). Qed.

Lemma process_line_lookup (filename : str) (data : Index) (i : nat)
    (line key : str) :
  ProcessData.process_line filename data i line !! key =
  if decide (key ∈ ProcessData.get_all_substrings (clean_words line))
  then Some (ht_get data key
               ++ [(line, Z.of_nat i + 1, ProcessData.source_of filename)])
  else data !! key.
Proof.
  unfold ProcessData.process_line. cbv zeta. fold (clean_words line).
  destruct (Py.nonempty _) eqn:Hne; [apply append_records_lookup|].
  rewrite decide_False; [reflexivity|].
  intros (w & Hw & _)%get_all_substrings_elements.
  unfold clean_words in Hw.
  destruct (ProcessData.remove_punctuation (Py.strip line));
    [destruct Hw | discriminate].
Qed.

Lemma process_from_sound (all_lines : list str) (filename : str)
    (lines : list str) : forall (data : Index) (i0 : nat),
  (forall (i : nat) line, lines !! i = Some line ->
     all_lines !! (i0 + i)%nat = Some line) ->
  sound_index all_lines filename data ->
  sound_index all_lines filename
    (ProcessData.process_from filename data i0 lines).
Proof.
  induction lines as [|line lines IH]; intros data i0 Hsub Hdata; [exact Hdata|].
  simpl. apply IH.
  { intros i l Hl. replace (S i0 + i)%nat with (i0 + S i)%nat by lia.
    by apply Hsub. }
  intros key records. rewrite process_line_lookup.
  destruct (decide _) as [Hin|Hout]; [|apply Hdata].
  intros [= <-]. split; [by destruct (ht_get data key)|].
  intros record [Hold|[<-|[]]]%in_app_or.
  - unfold ht_get in Hold. destruct (data !! key) as [old|] eqn:Hk;
      [|destruct Hold].
    by apply (Hdata key old).
  - apply get_all_substrings_elements in Hin as (w & Hw & Haff).
    exists i0, line, w. split; [|auto].
    specialize (Hsub 0%nat line eq_refl).
    by replace (i0 + 0)%nat with i0 in Hsub by lia.
Qed.

(** X2. In the index built from the empty one, every key is an affix (a
    prefix or suffix of length at least 2) of a word of a cleaned line,
    its entry is not empty, and every record of the entry is the record
    (original text, 1-based number, file name or "Unknown") of such a
    line. *)
Theorem process_index_sound (lines : list str) (filename key : str)
    (records : list LineRecord) :
  ProcessData.process ∅ lines filename !! key = Some records ->
  (2 <= length key)%nat /\ records <> [] /\
  forall record, In record records ->
    record_of_affix lines filename key record.
Proof.
  intros Hk.
  assert (Hs : sound_index lines filename
                 (ProcessData.process ∅ lines filename)).
  { apply process_from_sound; [auto|]. intros k r Hr.
    by rewrite lookup_empty in Hr. }
  destruct (Hs key records Hk) as [Hne Hrec]. split; [|auto].
  destruct records as [|r records]; [congruence|].
  destruct (Hrec r (or_introl eq_refl)) as (i & line & w & _ & _ & _ & Haff).
  destruct Haff as (j & Hj & [->| ->]).
  - rewrite length_take. lia.
  - rewrite length_drop. lia.
Qed.

Lemma process_index_sound_witness :
  (2 <= length (lit "ick"))%nat /\
  [(lit "The Quick Brown Fox", 1, lit "a.txt")] <> [] /\
  forall record, In record [(lit "The Quick Brown Fox", 1, lit "a.txt")] ->
    record_of_affix [lit "The Quick Brown Fox"] (lit "a.txt") (lit "ick")
      record.
Proof.
  apply (process_index_sound [lit "The Quick Brown Fox"] (lit "a.txt")
           (lit "ick")).
  vm_compute. reflexivity.
Defined.

Lemma process_from_extends (filename : str) (lines : list str) :
  forall (data : Index) (i0 : nat) (key : str) records,
  data !! key = Some records ->
  exists more,
    ProcessData.process_from filename data i0 lines !! key
    = Some (records ++ more).
Proof.
  induction lines as [|line lines IH]; intros data i0 key records Hk; simpl.
  - exists []. by rewrite app_nil_r.
  - destruct (IH (ProcessData.process_line filename data i0 line) (S i0) key
                (default records
                   (ProcessData.process_line filename data i0 line !! key)))
      as [more Hmore].
    { rewrite process_line_lookup. destruct (decide _); [|by rewrite Hk].
      unfold ht_get. by rewrite Hk. }
    rewrite Hmore. rewrite process_line_lookup.
    destruct (decide _).
    + simpl. unfold ht_get. rewrite Hk. simpl.
      eexists. by rewrite <- app_assoc.
    + rewrite Hk. simpl. eauto.
Qed.

(** X3. [process] is additive: an entry of the index it starts from is
    kept, with its records in their order, and new records are only
    appended after them. *)
Theorem process_appends (data : Index) (lines : list str)
    (filename key : str) (records : list LineRecord) :
  data !! key = Some records ->
  exists more,
    ProcessData.process data lines filename !! key = Some (records ++ more).
Proof. apply process_from_extends. Qed.

Lemma process_appends_witness :
  exists more,
    ProcessData.process
      (ProcessData.process ∅ [lit "big fox"] (lit "a.txt"))
      [lit "red fox"] (lit "b.txt") !! lit "fox"
    = Some ([(lit "big fox", 1, lit "a.txt")] ++ more).
Proof.
  apply (process_appends (ProcessData.process ∅ [lit "big fox"] (lit "a.txt"))
           [lit "red fox"] (lit "b.txt") (lit "fox")).
  vm_compute. reflexivity.
Defined.

Lemma process_line_no_affix (filename : str) (data : Index) (i : nat)
    (line : str) :
  (forall w, In w (clean_words line) -> (length w < 2)%nat) ->
  ProcessData.process_line filename data i line = data.
Proof.
  intros Hshort. apply map_eq. intros key. rewrite process_line_lookup.
  rewrite decide_False; [reflexivity|].
  intros (w & Hw & j & Hj & _)%get_all_substrings_elements.
  specialize (Hshort w Hw). lia.
Qed.

Lemma process_from_no_affix (filename : str) (lines : list str) :
  (forall line w, In line lines -> In w (clean_words line) ->
     (length w < 2)%nat) ->
  forall (data : Index) (i0 : nat),
    ProcessData.process_from filename data i0 lines = data.
Proof.
  induction lines as [|line lines IH]; intros Hshort data i0; [reflexivity|].
  simpl. rewrite process_line_no_affix.
  - apply IH. intros l w Hl. apply Hshort. by right.
  - intros w. apply Hshort. by left.
Qed.

(** X4. Lines without a word of two letters or more (empty lines, lines
    of digits or punctuation, one-letter words) leave the index as it
    was: they are never retrievable. *)
Theorem process_skips_short_lines (data : Index) (lines : list str)
    (filename : str) :
  (forall line w, In line lines -> In w (clean_words line) ->
     (length w < 2)%nat) ->
  ProcessData.process data lines filename = data.
Proof. intros H. by apply process_from_no_affix. Qed.

Lemma process_skips_short_lines_witness :
  ProcessData.process ∅ [lit ""; lit "1 2 3 !"; lit "a I x9 ab_c"]
    (lit "a.txt") = ∅.
Proof.
  apply (process_skips_short_lines ∅
           [lit ""; lit "1 2 3 !"; lit "a I x9 ab_c"] (lit "a.txt")).
  intros line w [<-|[<-|[<-|[]]]]; vm_compute;
    repeat (intros [<-|H]; [lia | revert H]); tauto.
Defined.

Lemma runs_join_space (P : ascii -> bool) (ws : list str) :
  P " "%char = false ->
  (forall w, In w ws -> w <> [] /\ forallb P w = true) ->
  Py.runs P (Py.join_space ws) = ws.
Proof.
  intros Hsp. unfold Py.runs.
  induction ws as [|w ws IH]; intros H; [reflexivity|].
  destruct (H w (or_introl eq_refl)) as [Hne HP].
  assert (Hn : Py.nonempty w = true) by by destruct w.
  destruct ws as [|w' ws].
  - simpl. rewrite chunks_word by assumption. simpl. by rewrite Hn.
  - change (Py.join_space (w :: w' :: ws))
      with (w ++ " "%char :: Py.join_space (w' :: ws)).
    rewrite chunks_app_sep by assumption.
    cbn [List.filter]. rewrite Hn. f_equal. apply IH.
    intros x Hx. apply H. by right.
Qed.

Lemma lower_char_fixed c :
  Py.is_lower c = true \/ c = " "%char -> Py.lower_char c = c.
Proof.
  intros [H| ->]; [|reflexivity]. revert H.
  destruct c as [[] [] [] [] [] [] [] []]; vm_compute; congruence.
Qed.

Lemma lower_join_tokens ws :
  (forall w, In w ws -> forallb Py.is_lower w = true) ->
  Py.lower (Py.join_space ws) = Py.join_space ws.
Proof.
  assert (Hw : forall w, forallb Py.is_lower w = true -> Py.lower w = w).
  { induction w as [|c w IH]; simpl; [reflexivity|].
    intros [Hc Hw]%andb_true_iff.
    by rewrite lower_char_fixed, (IH Hw) by by left. }
  induction ws as [|w ws IH]; intros H; [reflexivity|].
  destruct ws as [|w' ws].
  - simpl. apply Hw, H. by left.
  - change (Py.join_space (w :: w' :: ws))
      with (w ++ " "%char :: Py.join_space (w' :: ws)).
    assert (Hrest : Py.lower (Py.join_space (w' :: ws))
                    = Py.join_space (w' :: ws))
      by (apply IH; intros x Hx; apply H; by right).
    assert (Hhead : Py.lower w = w) by (apply Hw, H; by left).
    unfold Py.lower in *. rewrite map_app, map_cons, Hhead, Hrest.
    reflexivity.
Qed.

Lemma filter_all_true {A} (f : A -> bool) (l : list A) :
  (forall x, In x l -> f x = true) -> List.filter f l = l.
Proof.
  induction l as [|x l IH]; intros H; simpl; [reflexivity|].
  rewrite (H x) by by left. f_equal. apply IH. intros y Hy. apply H. by right.
Qed.

(** The tokenizer gives back the tokens that were joined with spaces. *)
Lemma findall_join_tokens ws :
  (forall w, In w ws -> is_token w) ->
  Re.findall (Py.join_space ws) = ws.
Proof.
  intros H. rewrite findall_alpha_words. unfold alpha_words.
  rewrite runs_join_space; [|reflexivity|].
  - apply filter_all_true. intros w Hw. by apply H.
  - intros w Hw. destruct (H w Hw) as [Hne Hlow]. split; [assumption|].
    clear Hne Hw. induction w as [|c w IH]; [reflexivity|]. simpl in *.
    apply andb_true_iff in Hlow as [Hc Hlow].
    by rewrite (is_lower_word _ Hc), IH.
Qed.

(** X5. Cleaning is idempotent: a cleaned line is left unchanged by a
    second cleaning. *)
Theorem remove_punctuation_idempotent (line : str) :
  ProcessData.remove_punctuation (ProcessData.remove_punctuation line)
  = ProcessData.remove_punctuation line.
Proof.
  unfold ProcessData.remove_punctuation.
  rewrite lower_join_tokens
    by (intros w Hw; exact (proj2 (findall_token _ _ Hw))).
  by rewrite findall_join_tokens
    by (intros w Hw; exact (findall_token _ _ Hw)).
Qed.

(** ** The archive reader *)

Lemma read_keeps (infolist : list ZipOpener.member) :
  forall (data : Index) (key : str) (record : LineRecord),
  has_record data key record ->
  has_record (ZipOpener.read data infolist) key record.
Proof.
  unfold ZipOpener.read.
  induction infolist as [|m infolist IH]; intros data key record H; [exact H|].
  cbn [foldl]. apply IH. destruct (_ && _); [|exact H].
  by apply process_from_keeps.
Qed.

Lemma endswith_nonempty (s : str) :
  ZipOpener.endswith s (lit ".txt") = true -> Py.nonempty s = true.
Proof. destruct s; [discriminate | reflexivity]. Qed.

(** X6. After [read], every word of two letters or more of a row of a
    text file of the archive (a member that is not a directory and whose
    name ends in [.txt]) is a key of the index, and its entry holds the
    record of that row with the member's name as the source. *)
Theorem read_indexes_text_files (data : Index)
    (before after : list ZipOpener.member) (file_info : ZipOpener.member)
    (i : nat) (line w : str) :
  ZipOpener.is_dir file_info = false ->
  ZipOpener.endswith (ZipOpener.filename file_info) (lit ".txt") = true ->
  ZipOpener.rows file_info !! i = Some line ->
  In w (clean_words line) -> (2 <= length w)%nat ->
  exists records,
    ZipOpener.read data (before ++ file_info :: after) !! w = Some records /\
    (line, Z.of_nat i + 1, ZipOpener.filename file_info) ∈ records.
Proof.
  intros Hdir Htxt Hrow Hw Hlen. unfold ZipOpener.read.
  rewrite foldl_app. cbn [foldl]. rewrite Hdir, Htxt. cbn [negb andb].
  apply read_keeps.
  destruct (process_from_adds (ZipOpener.filename file_info)
              (ZipOpener.rows file_info)
              (foldl (fun data m =>
                 if negb (ZipOpener.is_dir m)
                    && ZipOpener.endswith (ZipOpener.filename m) (lit ".txt")
                 then ProcessData.process data (ZipOpener.rows m)
                        (ZipOpener.filename m)
                 else data) data before)
              0%nat i line w Hrow Hw Hlen) as (records & Hk & Hin).
  exists records. split; [exact Hk|].
  unfold ProcessData.source_of in Hin.
  by rewrite (endswith_nonempty _ Htxt) in Hin.
Qed.

Lemma read_indexes_text_files_witness :
  exists records,
    ZipOpener.read ∅
      ([ZipOpener.mkMember (lit "docs/") true []]
         ++ ZipOpener.mkMember (lit "docs/a.txt") false
              [lit "The Quick Brown Fox"]
         :: [ZipOpener.mkMember (lit "b.md") false [lit "hidden words"]])
      !! lit "quick" = Some records /\
    (lit "The Quick Brown Fox", Z.of_nat 0 + 1, lit "docs/a.txt") ∈ records.
Proof.
  apply (read_indexes_text_files ∅
           [ZipOpener.mkMember (lit "docs/") true []]
           [ZipOpener.mkMember (lit "b.md") false [lit "hidden words"]]
           (ZipOpener.mkMember (lit "docs/a.txt") false
              [lit "The Quick Brown Fox"])
           0 (lit "The Quick Brown Fox") (lit "quick")).
  - reflexivity.
  - vm_compute. reflexivity.
  - reflexivity.
  - vm_compute. right. left. reflexivity.
  - vm_compute. lia.
Defined.

(** X7. [read] ignores the directories and the members whose name does
    not end in [.txt]: an archive with no text file leaves the index
    unchanged. *)
Theorem read_ignores_other_members (data : Index)
    (infolist : list ZipOpener.member) :
  (forall m, In m infolist ->
     ZipOpener.is_dir m = true \/
     ZipOpener.endswith (ZipOpener.filename m) (lit ".txt") = false) ->
  ZipOpener.read data infolist = data.
Proof.
  unfold ZipOpener.read. revert data.
  induction infolist as [|m infolist IH]; intros data H; [reflexivity|].
  cbn [foldl].
  destruct (H m (or_introl eq_refl)) as [-> | ->];
    rewrite ?andb_false_r; cbn [negb andb];
    apply IH; intros x Hx; apply H; by right.
Qed.

Lemma read_ignores_other_members_witness :
  ZipOpener.read ∅
    [ZipOpener.mkMember (lit "notes.txt") true [];
     ZipOpener.mkMember (lit "b.md") false [lit "hidden words"];
     ZipOpener.mkMember (lit "c.TXT") false [lit "upper case suffix"]] = ∅.
Proof.
  apply (read_ignores_other_members ∅).
  intros m [<-|[<-|[<-|[]]]]; vm_compute; auto.
Defined.

(** * Further properties of the correction generators *)

Lemma delete_loop_closed ht sentence positions : forall valid,
  (length valid < 5)%nat ->
  AutoComplete.delete_loop ht sentence positions valid =
  valid ++
  map (fun i => (AutoComplete.deleted sentence i,
                 AutoComplete.delete_score sentence i))
      (take (5 - length valid)
         (List.filter (fun i => in_ht ht (AutoComplete.deleted sentence i))
            positions)).
Proof.
  induction positions as [|i rest IH]; intros valid Hlen;
    cbn [AutoComplete.delete_loop List.filter].
  - rewrite take_nil. simpl. by rewrite app_nil_r.
  - destruct (in_ht ht (AutoComplete.deleted sentence i)) eqn:Hin;
      [|by apply IH].
    destruct (Nat.eqb_spec
                (length (valid ++ [(AutoComplete.deleted sentence i,
                                    AutoComplete.delete_score sentence i)])) 5)
      as [H5|H5]; rewrite length_app in H5; simpl in H5.
    + replace (5 - length valid)%nat with 1%nat by lia. reflexivity.
    + rewrite IH by (rewrite length_app; simpl; lia).
      rewrite length_app. simpl length.
      replace (5 - length valid)%nat with (S (5 - (length valid + 1)))%nat
        by lia.
      simpl. by rewrite <- app_assoc.
Qed.

(** X8. [delete_char] returns the deletions at the first five accepted
    positions of the right-to-left scan, in that order, and so never more
    than five candidates. *)
Theorem delete_char_first_five (ht : Index) (sentence : str) :
  AutoComplete.delete_char ht sentence =
  map (fun i => (AutoComplete.deleted sentence i,
                 AutoComplete.delete_score sentence i))
      (take 5
         (List.filter (fun i => in_ht ht (AutoComplete.deleted sentence i))
            (Py.range_down (length sentence)))) /\
  (length (AutoComplete.delete_char ht sentence) <= 5)%nat.
Proof.
  unfold AutoComplete.delete_char.
  rewrite delete_loop_closed by (simpl; lia). simpl.
  split; [reflexivity|]. rewrite length_map, length_take. lia.
Qed.

Lemma bound_nat n (i : Z) : 0 <= i <= Z.of_nat n -> Py.bound n i = Z.to_nat i.
Proof.
  intros H. unfold Py.bound. destruct (Z.ltb_spec i 0); lia.
Qed.

Lemma deleted_whole (sentence : str) :
  AutoComplete.deleted sentence (Z.of_nat (length sentence)) = sentence.
Proof.
  unfold AutoComplete.deleted, Py.slice_to, Py.slice_from.
  rewrite bound_length. unfold Py.bound.
  destruct (Z.ltb_spec (Z.of_nat (length sentence) + 1) 0); [lia|].
  replace (Z.to_nat _) with (length sentence) by lia.
  by rewrite firstn_all, drop_all, app_nil_r.
Qed.

Lemma deleted_inside (sentence : str) (i : Z) :
  0 <= i < Z.of_nat (length sentence) ->
  exists ch,
    sentence = take (Z.to_nat i) sentence ++ ch :: drop (S (Z.to_nat i)) sentence /\
    AutoComplete.deleted sentence i
    = take (Z.to_nat i) sentence ++ drop (S (Z.to_nat i)) sentence.
Proof.
  intros Hi. unfold AutoComplete.deleted, Py.slice_to, Py.slice_from.
  rewrite !bound_nat by lia.
  replace (Z.to_nat (i + 1)) with (S (Z.to_nat i)) by lia.
  destruct (lookup_lt_is_Some_2 sentence (Z.to_nat i)) as [ch Hch]; [lia|].
  exists ch. split; [|reflexivity].
  symmetry. by apply take_drop_middle.
Qed.

(** X9. For a token that is not a key, every candidate of [delete_char]
    is a key of the index and is the token with exactly one character
    removed, scored by the position of that character. *)
Theorem delete_char_single_deletion (ht : Index) (sentence : str)
    (c : str * Z) :
  in_ht ht sentence = false ->
  In c (AutoComplete.delete_char ht sentence) ->
  in_ht ht c.1 = true /\
  exists before ch after,
    sentence = before ++ ch :: after /\ c.1 = before ++ after /\
    c.2 = AutoComplete.delete_score sentence (Z.of_nat (length before)).
Proof.
  intros Hout (i & Hi & Hin & ->)%delete_char_elements. split; [exact Hin|].
  destruct (decide (i = Z.of_nat (length sentence))) as [->|Hne].
  { rewrite deleted_whole in Hin. congruence. }
  destruct (deleted_inside sentence i) as (ch & Hs & Hd); [lia|].
  exists (take (Z.to_nat i) sentence), ch, (drop (S (Z.to_nat i)) sentence).
  split; [exact Hs|]. split; [exact Hd|]. simpl.
  rewrite length_take. f_equal. lia.
Qed.

Lemma delete_char_single_deletion_witness :
  in_ht (ProcessData.process ∅ [lit "ab ac"] (lit "a.txt")) (lit "ab", -2).1
    = true /\
  exists before ch after,
    lit "abc" = before ++ ch :: after /\ (lit "ab", -2).1 = before ++ after /\
    (lit "ab", -2).2
    = AutoComplete.delete_score (lit "abc") (Z.of_nat (length before)).
Proof.
  apply (delete_char_single_deletion
           (ProcessData.process ∅ [lit "ab ac"] (lit "a.txt")) (lit "abc")
           (lit "ab", -2)).
  - vm_compute. reflexivity.
  - vm_compute. left. reflexivity.
Defined.

Lemma in_ascii_lowercase ch :
  In ch Py.ascii_lowercase <-> Py.is_lower ch = true.
Proof.
  split.
  - unfold Py.ascii_lowercase. cbn.
    intros H. repeat (destruct H as [<-|H]; [reflexivity|]). destruct H.
  - destruct ch as [[] [] [] [] [] [] [] []]; vm_compute;
      intros H; try discriminate H; clear H;
      repeat (try (left; reflexivity); right).
Qed.

Lemma in_range_down_iff n i : In i (Py.range_down n) <-> 0 <= i <= Z.of_nat n.
Proof.
  unfold Py.range_down. rewrite <- in_rev, <- list_elem_of_In, elem_of_seqZ.
  lia.
Qed.

Lemma added_split (sentence : str) ch (i : Z) :
  0 <= i <= Z.of_nat (length sentence) ->
  AutoComplete.added sentence ch i
  = take (Z.to_nat i) sentence ++ ch :: drop (Z.to_nat i) sentence.
Proof.
  intros Hi. unfold AutoComplete.added, Py.slice_to, Py.slice_from.
  by rewrite bound_nat by lia.
Qed.

Lemma add_char_elements (ht : Index) (sentence : str) (c : str * Z) :
  In c (AutoComplete.add_char ht sentence) <->
  exists before ch after,
    Py.is_lower ch = true /\ sentence = before ++ after /\
    in_ht ht (before ++ ch :: after) = true /\
    c = (before ++ ch :: after,
         AutoComplete.addition_score (Z.of_nat (length before))
           (Z.of_nat (length sentence) * 2)).
Proof.
  unfold AutoComplete.add_char, AutoComplete.add_positions.
  rewrite in_flat_map. split.
  - intros (ch & Hch%in_ascii_lowercase & (i & Hi%in_range_down_iff & Hc)%in_flat_map).
    rewrite added_split in Hc by lia.
    destruct (in_ht ht _) eqn:Hin; [|destruct Hc].
    destruct Hc as [<-|[]].
    exists (take (Z.to_nat i) sentence), ch, (drop (Z.to_nat i) sentence).
    split; [exact Hch|]. split; [by rewrite take_drop|].
    split; [exact Hin|]. rewrite length_take.
    do 2 f_equal. lia.
  - intros (before & ch & after & Hch & -> & Hin & ->).
    exists ch. split; [by apply in_ascii_lowercase|].
    apply in_flat_map. exists (Z.of_nat (length before)).
    split; [apply in_range_down_iff; rewrite length_app; lia|].
    rewrite added_split by (rewrite length_app; lia).
    rewrite Nat2Z.id, take_app_length, drop_app_length, Hin. by left.
Qed.

(** X10. [add_char] returns exactly the keys of the index that are the
    token with one lowercase letter inserted, each scored by the position
    of the insertion; there is no cap on their number. *)
Theorem add_char_exact (ht : Index) (sentence : str) (c : str * Z) :
  In c (AutoComplete.add_char ht sentence) <->
  exists before ch after,
    Py.is_lower ch = true /\ sentence = before ++ after /\
    in_ht ht (before ++ ch :: after) = true /\
    c = (before ++ ch :: after,
         AutoComplete.addition_score (Z.of_nat (length before))
           (Z.of_nat (length sentence) * 2)).
Proof. exact (add_char_elements ht sentence c). Qed.

Lemma addition_score_value (index max_score : Z) :
  0 <= index ->
  AutoComplete.addition_score index max_score
  = max_score - (if index <? 4 then 10 - 2 * index else 2).
Proof.
  intros H. unfold AutoComplete.addition_score.
  destruct (Z.ltb_spec index 4); [|reflexivity].
  destruct (Z.ltb_spec index 0); [lia|].
  assert (Hc : index = 0 \/ index = 1 \/ index = 2 \/ index = 3) by lia.
  destruct Hc as [->|[->|[->| ->]]]; reflexivity.
Qed.

(** X11. The scores of insertion and of substitution do not decrease with
    the position: an edit nearer the start of the token never scores
    higher than the same kind of edit nearer its end; the insertion
    penalty stays between 2 and 10. *)
Theorem later_positions_score_higher (i i' max_score : Z) :
  0 <= i <= i' ->
  AutoComplete.addition_score i max_score
    <= AutoComplete.addition_score i' max_score /\
  max_score - 10 <= AutoComplete.addition_score i max_score <= max_score - 2 /\
  AutoComplete.replace_penalty i' <= AutoComplete.replace_penalty i.
Proof.
  intros H. rewrite !addition_score_value by lia.
  unfold AutoComplete.replace_penalty.
  destruct (Z.ltb_spec i 4), (Z.ltb_spec i' 4),
    (Z.gtb_spec i 3), (Z.gtb_spec i' 3); lia.
Qed.

Lemma later_positions_score_higher_witness :
  AutoComplete.addition_score 1 10 <= AutoComplete.addition_score 5 10 /\
  10 - 10 <= AutoComplete.addition_score 1 10 <= 10 - 2 /\
  AutoComplete.replace_penalty 5 <= AutoComplete.replace_penalty 1.
Proof. apply (later_positions_score_higher 1 5 10). lia. Defined.

(** ** The candidates of the substitution generator *)

Lemma replace_letters_elements ht subtext pos letters :
  forall possible possible' (c : str * Z),
  AutoComplete.replace_letters ht subtext pos letters possible = Ok possible' ->
  In c possible' ->
  In c possible \/
  exists ch c0, In ch letters /\ Py.getitem subtext pos = Ok c0 /\ ch <> c0 /\
    in_ht ht (AutoComplete.replaced subtext ch pos) = true /\
    c = (AutoComplete.replaced subtext ch pos,
         (Z.of_nat (length subtext) - 1) * 2 - AutoComplete.replace_penalty pos).
Proof.
  induction letters as [|char rest IH]; intros possible possible' c;
    cbn [AutoComplete.replace_letters].
  - intros [= <-]. auto.
  - destruct (Py.getitem subtext pos) as [c0|e] eqn:Hget; [|discriminate].
    cbn [mbind result_bind].
    assert (Hrest : forall p, AutoComplete.replace_letters ht subtext pos rest p
                              = Ok possible' ->
              In c possible' ->
              In c p \/ exists ch c1, In ch (char :: rest) /\ Ok c0 = Ok c1 /\
                ch <> c1 /\
                in_ht ht (AutoComplete.replaced subtext ch pos) = true /\
                c = (AutoComplete.replaced subtext ch pos,
                     (Z.of_nat (length subtext) - 1) * 2
                     - AutoComplete.replace_penalty pos)).
    { intros p Hp Hc. destruct (IH p possible' c Hp Hc)
        as [H|(ch & c1 & Hch & Hg & H)]; [by left|].
      right. exists ch, c1. split; [by right | auto]. }
    destruct (bool_decide (char = c0)) eqn:Hsame; [apply Hrest|].
    apply bool_decide_eq_false in Hsame.
    destruct (in_ht ht (AutoComplete.replaced subtext char pos)) eqn:Hin;
      [|apply Hrest].
    assert (Hnew : forall q,
      In c (possible ++ [(AutoComplete.replaced subtext char pos,
              (Z.of_nat (length subtext) - 1) * 2
              - AutoComplete.replace_penalty pos)]) \/ q ->
      In c possible \/ q \/
      exists ch c1, In ch (char :: rest) /\ Ok c0 = Ok c1 /\ ch <> c1 /\
        in_ht ht (AutoComplete.replaced subtext ch pos) = true /\
        c = (AutoComplete.replaced subtext ch pos,
             (Z.of_nat (length subtext) - 1) * 2
             - AutoComplete.replace_penalty pos)).
    { intros q [[H|[<-|[]]]%in_app_or|H]; [by left | | right; by left].
      right. right. exists char, c0. split; [by left | auto]. }
    destruct (_ =? 5)%nat.
    + intros [= <-] Hc. destruct (Hnew False (or_introl Hc)) as [H|[[]|H]];
        auto.
    + intros Hp Hc. destruct (Hrest _ Hp Hc) as [H|H]; [|by right].
      destruct (Hnew False (or_introl H)) as [H'|[[]|H']]; auto.
Qed.

Lemma replace_offsets_elements ht subtext end_word_index offsets :
  forall possible possible' (c : str * Z),
  AutoComplete.replace_offsets ht subtext end_word_index offsets possible
    = Ok possible' ->
  In c possible' ->
  In c possible \/
  exists i ch c0, In i offsets /\ In ch Py.ascii_lowercase /\
    Py.getitem subtext (end_word_index - i) = Ok c0 /\ ch <> c0 /\
    in_ht ht (AutoComplete.replaced subtext ch (end_word_index - i)) = true /\
    c = (AutoComplete.replaced subtext ch (end_word_index - i),
         (Z.of_nat (length subtext) - 1) * 2
         - AutoComplete.replace_penalty (end_word_index - i)).
Proof.
  induction offsets as [|i rest IH]; intros possible possible' c;
    cbn [AutoComplete.replace_offsets].
  - intros [= <-]. auto.
  - destruct (AutoComplete.replace_letters ht subtext (end_word_index - i)
                Py.ascii_lowercase possible) as [mid|e] eqn:Hmid;
      [|discriminate].
    cbn [mbind result_bind]. intros Hrest Hc.
    destruct (IH mid possible' c Hrest Hc) as [H|(j & ch & c0 & Hj & H)].
    + destruct (replace_letters_elements _ _ _ _ _ _ c Hmid H)
        as [H'|(ch & c0 & H')]; [by left|].
      right. exists i, ch, c0. split; [by left | exact H'].
    + right. exists j, ch, c0. split; [by right | exact H].
Qed.

Lemma getitem_inside (s : str) (pos : Z) c0 :
  0 <= pos -> Py.getitem s pos = Ok c0 ->
  pos < Z.of_nat (length s) /\ s !! Z.to_nat pos = Some c0.
Proof.
  intros Hpos. unfold Py.getitem. cbv zeta.
  destruct (Z.ltb_spec pos 0); [lia|].
  destruct (Z.leb_spec 0 pos); [|lia].
  destruct (Z.ltb_spec pos (Z.of_nat (length s))); simpl; [|discriminate].
  destruct (s !! Z.to_nat pos); [|discriminate]. intros [= ->]. auto.
Qed.

Lemma replaced_inside (s : str) ch (pos : Z) :
  0 <= pos < Z.of_nat (length s) ->
  AutoComplete.replaced s ch pos
  = take (Z.to_nat pos) s ++ ch :: drop (S (Z.to_nat pos)) s.
Proof.
  intros H. unfold AutoComplete.replaced, Py.slice_to, Py.slice_from.
  rewrite !bound_nat by lia.
  by replace (Z.to_nat (pos + 1)) with (S (Z.to_nat pos)) by lia.
Qed.

Lemma replaced_before_start (s : str) ch :
  s <> [] ->
  AutoComplete.replaced s ch (-1) = take (length s - 1) s ++ ch :: s.
Proof.
  intros Hne. unfold AutoComplete.replaced, Py.slice_to, Py.slice_from.
  change (-1 + 1) with 0. rewrite bound_zero.
  change (-1) with (- Z.of_nat 1). rewrite bound_from_end; [reflexivity|].
  destruct s; [congruence | simpl; lia].
Qed.

(** X12. For a query token that is not a key, every candidate of
    [replace_char] is a key of the index, and it is either the token with
    one character replaced by a different one, or the string made of the
    token without its last character, one letter, and the whole token
    again (the position before the first character, read from the end).
    No other string is ever proposed. *)
Theorem replace_char_candidates (ht : Index) (w : str)
    (candidates : list (str * Z)) (c : str * Z) :
  is_token w -> in_ht ht w = false ->
  AutoComplete.replace_char ht w = Ok candidates ->
  In c candidates ->
  in_ht ht c.1 = true /\
  ((exists before x y after,
      x <> y /\ w = before ++ x :: after /\ c.1 = before ++ y :: after /\
      c.2 = (Z.of_nat (length w) - 1) * 2
            - AutoComplete.replace_penalty (Z.of_nat (length before))) \/
   (exists y, c.1 = take (length w - 1) w ++ y :: w /\
      c.2 = (Z.of_nat (length w) - 1) * 2 - 6)).
Proof.
  intros Htok Hout. unfold AutoComplete.replace_char,
    AutoComplete.has_multiple_mismatches,
    AutoComplete.find_mismatched_word_and_index.
  rewrite (split_token _ Htok).
  cbn [AutoComplete.mismatch_loop AutoComplete.find_from]. rewrite Hout.
  change (0 + 1 >? 1) with false. cbv iota.
  unfold AutoComplete.generate_possible_replacements.
  intros Hres Hc.
  destruct (replace_offsets_elements _ _ _ _ _ _ c Hres Hc)
    as [[]|(i & ch & c0 & Hi%in_range_down_iff & _ & Hget & Hne & Hin & ->)].
  split; [exact Hin|]. cbn [fst snd].
  destruct Htok as [Hnil _].
  destruct (decide (i = Z.of_nat (length w))) as [->|Hi'].
  - right. exists ch.
    replace (0 + Z.of_nat (length w) - 1 - Z.of_nat (length w)) with (-1)
      by lia.
    rewrite replaced_before_start by assumption. split; reflexivity.
  - left.
    set (pos := 0 + Z.of_nat (length w) - 1 - i) in *.
    assert (Hpos : 0 <= pos < Z.of_nat (length w)) by (unfold pos; lia).
    destruct (getitem_inside w pos c0) as [_ Hlook]; [lia | exact Hget |].
    exists (take (Z.to_nat pos) w), c0, ch, (drop (S (Z.to_nat pos)) w).
    split; [congruence|]. split; [symmetry; by apply take_drop_middle|].
    split; [by apply replaced_inside|].
    rewrite length_take. do 2 f_equal. lia.
Qed.

Lemma replace_char_candidates_witness :
  in_ht (ProcessData.process ∅ [lit "xaxyz"] (lit "a.txt")) (lit "xa", -2).1
    = true /\
  ((exists before x y after,
      x <> y /\ lit "xy" = before ++ x :: after /\
      (lit "xa", -2).1 = before ++ y :: after /\
      (lit "xa", -2).2
      = (Z.of_nat (length (lit "xy")) - 1) * 2
        - AutoComplete.replace_penalty (Z.of_nat (length before))) \/
   (exists y,
      (lit "xa", -2).1 = take (length (lit "xy") - 1) (lit "xy") ++ y :: lit "xy" /\
      (lit "xa", -2).2 = (Z.of_nat (length (lit "xy")) - 1) * 2 - 6)).
Proof.
  apply (replace_char_candidates
           (ProcessData.process ∅ [lit "xaxyz"] (lit "a.txt")) (lit "xy")
           [(lit "xaxy", -4); (lit "xa", -2)] (lit "xa", -2)).
  - split; [discriminate | reflexivity].
  - vm_compute. reflexivity.
  - vm_compute. reflexivity.
  - right. left. reflexivity.
Defined.

(** ** Counting the unknown words of a subtext *)

Lemma mismatch_loop_count ht words : forall mismatches,
  0 <= mismatches <= 1 ->
  (AutoComplete.mismatch_loop ht words mismatches = true <->
   2 <= mismatches
        + Z.of_nat (length (List.filter (fun w => negb (in_ht ht w)) words))).
Proof.
  induction words as [|word rest IH]; intros m Hm; simpl.
  - split; [discriminate | lia].
  - destruct (in_ht ht word); simpl.
    + by apply IH.
    + destruct (Z.gtb_spec (m + 1) 1).
      * split; [lia | reflexivity].
      * rewrite IH by lia. lia.
Qed.

(** X13. [has_multiple_mismatches] answers [True] exactly when two or
    more whitespace-delimited words of the subtext are not keys of the
    index, and [replace_char] then proposes nothing. *)
Theorem multiple_mismatches_iff (ht : Index) (subtext : str) :
  (AutoComplete.has_multiple_mismatches ht subtext = true <->
   (2 <= length (List.filter (fun w => negb (in_ht ht w))
                   (Py.split subtext)))%nat) /\
  (AutoComplete.has_multiple_mismatches ht subtext = true ->
   AutoComplete.replace_char ht subtext = Ok []).
Proof.
  split.
  - unfold AutoComplete.has_multiple_mismatches.
    rewrite mismatch_loop_count by lia. lia.
  - unfold AutoComplete.replace_char. by intros ->.
Qed.

Lemma find_from_some ht words : forall (i0 : Z) (w : str) (i : Z),
  AutoComplete.find_from ht i0 words = Some (w, i) ->
  i0 <= i /\ words !! Z.to_nat (i - i0) = Some w /\ in_ht ht w = false /\
  forall (j : nat) x, (j < Z.to_nat (i - i0))%nat -> words !! j = Some x ->
    in_ht ht x = true.
Proof.
  induction words as [|word rest IH]; intros i0 w i; simpl; [discriminate|].
  destruct (in_ht ht word) eqn:Hin.
  - intros (Hle & Hlook & Hout & Hbefore)%IH.
    replace (Z.to_nat (i - i0)) with (S (Z.to_nat (i - (i0 + 1)))) by lia.
    split; [lia|]. split; [exact Hlook|]. split; [exact Hout|].
    intros [|j] x Hj; simpl; [by intros [= <-]|].
    apply Hbefore. lia.
  - intros [= <- <-]. rewrite Z.sub_diag. simpl.
    split; [lia|]. split; [reflexivity|]. split; [exact Hin|]. lia.
Qed.

(** X14. [find_mismatched_word_and_index] returns the first word of the
    subtext that is not a key, together with its rank among the words
    (not its character offset); it returns [None] exactly when every word
    is a key. *)
Theorem find_mismatched_first_unknown (ht : Index) (subtext : str) :
  (forall w i,
     AutoComplete.find_mismatched_word_and_index ht subtext = Some (w, i) ->
     0 <= i /\ Py.split subtext !! Z.to_nat i = Some w /\
     in_ht ht w = false /\
     forall (j : nat) x, (j < Z.to_nat i)%nat ->
       Py.split subtext !! j = Some x -> in_ht ht x = true) /\
  (AutoComplete.find_mismatched_word_and_index ht subtext = None <->
   forall w, In w (Py.split subtext) -> in_ht ht w = true).
Proof.
  unfold AutoComplete.find_mismatched_word_and_index. split.
  - intros w i H%find_from_some. by rewrite Z.sub_0_r in H.
  - split; [|apply find_from_known].
    generalize 0. induction (Py.split subtext) as [|word rest IH];
      intros i0; simpl; [intros _ w []|].
    destruct (in_ht ht word) eqn:Hin; [|discriminate].
    intros H w [<-|Hw]; [exact Hin | by apply (IH _ H)].
Qed.

(** ** The choice of the best candidate *)

Lemma best_of_from ht_pool : forall (h : Z) (key : str),
  (AutoComplete.best_of ht_pool (Some h) key = key /\
   forall c : str * Z, In c ht_pool -> c.2 <= h) \/
  (exists (i : nat) (sc : Z),
     ht_pool !! i = Some (AutoComplete.best_of ht_pool (Some h) key, sc) /\
     h < sc /\
     (forall c : str * Z, In c ht_pool -> c.2 <= sc) /\
     forall (j : nat) (c : str * Z), (j < i)%nat -> ht_pool !! j = Some c ->
       c.2 < sc).
Proof.
  induction ht_pool as [|c rest IH]; intros h key; simpl.
  - left. split; [reflexivity | intros c []].
  - destruct (Z.gtb_spec c.2 h) as [Hgt|Hle].
    + right. destruct (IH c.2 c.1) as [[-> Hall]|(i & sc & Hi & Hsc & Hall & Hfirst)].
      * exists 0%nat, c.2. split; [by destruct c|]. split; [lia|].
        split; [|intros j x Hj; lia].
        intros x [<-|Hx]; [lia | by apply Hall].
      * exists (S i), sc. split; [exact Hi|]. split; [lia|]. split.
        -- intros x [<-|Hx]; [lia | by apply Hall].
        -- intros [|j] x Hj; simpl; [intros [= <-]; lia|].
           apply Hfirst. lia.
    + destruct (IH h key) as [[-> Hall]|(i & sc & Hi & Hsc & Hall & Hfirst)].
      * left. split; [reflexivity|]. intros x [<-|Hx]; [lia | by apply Hall].
      * right. exists (S i), sc. split; [exact Hi|]. split; [lia|]. split.
        -- intros x [<-|Hx]; [lia | by apply Hall].
        -- intros [|j] x Hj; simpl; [intros [= <-]; lia|].
           apply Hfirst. lia.
Qed.

Lemma best_of_position (combining : list (str * Z)) :
  (combining = [] -> AutoComplete.best_of combining None [] = []) /\
  (combining <> [] ->
   exists (i : nat) (sc : Z),
     combining !! i = Some (AutoComplete.best_of combining None [], sc) /\
     (forall c : str * Z, In c combining -> c.2 <= sc) /\
     forall (j : nat) (c : str * Z), (j < i)%nat -> combining !! j = Some c ->
       c.2 < sc).
Proof.
  split; [by intros ->|].
  destruct combining as [|c rest]; [congruence|]. intros _. simpl.
  destruct (best_of_from rest c.2 c.1)
    as [[-> Hall]|(i & sc & Hi & Hsc & Hall & Hfirst)].
  - exists 0%nat, c.2. split; [by destruct c|]. split; [|intros j x Hj; lia].
    intros x [<-|Hx]; [lia | by apply Hall].
  - exists (S i), sc. split; [exact Hi|]. split.
    + intros x [<-|Hx]; [lia | by apply Hall].
    + intros [|j] x Hj; simpl; [intros [= <-]; lia|]. apply Hfirst. lia.
Qed.

(** X15. The selection keeps the first candidate of the pool that has the
    greatest score: no candidate scores higher and every earlier one
    scores strictly lower; an empty pool gives the empty string. *)
Theorem best_of_first_maximum (combining : list (str * Z)) :
  (combining = [] -> AutoComplete.best_of combining None [] = []) /\
  (combining <> [] ->
   exists (i : nat) (sc : Z),
     combining !! i = Some (AutoComplete.best_of combining None [], sc) /\
     (forall c : str * Z, In c combining -> c.2 <= sc) /\
     forall (j : nat) (c : str * Z), (j < i)%nat -> combining !! j = Some c ->
       c.2 < sc).
Proof. exact (best_of_position combining). Qed.

Lemma replace_char_keys ht subtext candidates (c : str * Z) :
  AutoComplete.replace_char ht subtext = Ok candidates ->
  In c candidates -> in_ht ht c.1 = true.
Proof.
  unfold AutoComplete.replace_char.
  destruct (AutoComplete.has_multiple_mismatches ht subtext);
    [intros [= <-] []|].
  destruct (AutoComplete.find_mismatched_word_and_index ht subtext)
    as [[w i]|]; [|discriminate].
  unfold AutoComplete.generate_possible_replacements. intros Hres Hc.
  destruct (replace_offsets_elements _ _ _ _ _ _ c Hres Hc)
    as [[]|(j & ch & c0 & _ & _ & _ & _ & Hin & ->)].
  exact Hin.
Qed.

Lemma combining_list_keys ht subtext combining (c : str * Z) :
  AutoComplete.combining_list ht subtext = Ok combining ->
  In c combining -> in_ht ht c.1 = true.
Proof.
  unfold AutoComplete.combining_list.
  destruct (AutoComplete.replace_char ht subtext) as [replaced_words|e] eqn:Hr;
    [|discriminate].
  cbn [mbind result_bind]. intros [= <-] [H|[H|H]%in_app_or]%in_app_or.
  - by apply (replace_char_keys _ _ _ _ Hr).
  - by apply delete_char_elements in H as (i & _ & Hin & ->).
  - by apply add_char_elements in H as (b & ch & a & _ & _ & Hin & ->).
Qed.

Lemma best_completion_key (ht : Index) (subtext new_word : str) :
  AutoComplete.get_best_completions ht subtext = Ok new_word ->
  new_word = [] \/ in_ht ht new_word = true.
Proof.
  unfold AutoComplete.get_best_completions.
  destruct (AutoComplete.combining_list ht subtext) as [combining|e] eqn:Hc;
    [|discriminate].
  cbn [mbind result_bind]. intros [= <-].
  destruct combining as [|c0 rest]; [by left|]. right.
  destruct (proj2 (best_of_position (c0 :: rest)))
    as (i & sc & Hi & _); [discriminate|].
  apply (combining_list_keys _ _ _ (AutoComplete.best_of (c0 :: rest) None [], sc) Hc).
  apply list_elem_of_In. eapply list_elem_of_lookup_2, Hi.
Qed.

(** X16. Whatever the subtext, a correction returned by
    [get_best_completions] is either the empty string (no candidate) or a
    key of the index. *)
Theorem get_best_completions_key (ht : Index) (subtext new_word : str) :
  AutoComplete.get_best_completions ht subtext = Ok new_word ->
  new_word = [] \/ in_ht ht new_word = true.
Proof. exact (best_completion_key ht subtext new_word). Qed.

Lemma get_best_completions_key_witness :
  lit "quic" = [] \/
  in_ht (ProcessData.process ∅ [lit "The Quick Brown Fox"] (lit "a.txt"))
    (lit "quic") = true.
Proof.
  apply (get_best_completions_key
           (ProcessData.process ∅ [lit "The Quick Brown Fox"] (lit "a.txt"))
           (lit "quikc") (lit "quic")).
  vm_compute. reflexivity.
Defined.

Lemma resolve_loop_keys ht user_words :
  forall lines correct lines' correct',
  AutoComplete.resolve_loop ht user_words lines correct
    = Ok (Some (lines', correct')) ->
  exists resolved,
    correct' = correct ++ resolved /\
    length resolved = length user_words /\
    forall (i : nat) (t u : str),
      user_words !! i = Some t -> resolved !! i = Some u ->
      in_ht ht u = true /\ (in_ht ht t = true -> u = t).
Proof.
  induction user_words as [|word rest IH]; intros lines correct lines' correct';
    cbn [AutoComplete.resolve_loop].
  - intros [= _ <-]. exists []. rewrite app_nil_r.
    split; [reflexivity|]. split; [reflexivity|]. intros i t u Hi.
    discriminate.
  - destruct (in_ht ht word) eqn:Hin.
    + intros (resolved & -> & Hlen & Hres)%IH. exists (word :: resolved).
      rewrite <- app_assoc. split; [reflexivity|].
      split; [simpl; by rewrite Hlen|].
      intros [|i] t u; simpl; [intros [= <-] [= <-]; auto | apply Hres].
    + destruct (AutoComplete.get_best_completions ht word) as [new_word|e]
        eqn:Hbest; [|discriminate].
      cbn [mbind result_bind].
      destruct (Py.nonempty new_word) eqn:Hne; [|discriminate].
      intros (resolved & -> & Hlen & Hres)%IH. exists (new_word :: resolved).
      rewrite <- app_assoc. split; [reflexivity|].
      split; [simpl; by rewrite Hlen|].
      intros [|i] t u; simpl; [|apply Hres].
      intros [= <-] [= <-]. split; [|congruence].
      destruct (best_completion_key _ _ _ Hbest) as [->|H];
        [discriminate | exact H].
Qed.

(** X17. Every resolved token is a key of the index, one per query token
    and in the same order, and a query token that is itself a key is kept
    as it is: the engine only ever reads entries that exist. *)
Theorem resolved_tokens_are_keys (ht : Index) (user_input : str)
    (resolved : list str) :
  (exists lines,
     AutoComplete.resolve_loop ht (AutoComplete.tokenize user_input) ∅ []
     = Ok (Some (lines, resolved))) ->
  length resolved = length (AutoComplete.tokenize user_input) /\
  forall (i : nat) (t u : str),
    AutoComplete.tokenize user_input !! i = Some t ->
    resolved !! i = Some u ->
    in_ht ht u = true /\ (in_ht ht t = true -> u = t).
Proof.
  intros (lines & (res & Heq & Hlen & Hres)%resolve_loop_keys).
  simpl in Heq. subst res. auto.
Qed.

Lemma resolved_tokens_are_keys_witness :
  length [lit "quic"; lit "fox"]
    = length (AutoComplete.tokenize (lit "quikc FOX")) /\
  forall (i : nat) (t u : str),
    AutoComplete.tokenize (lit "quikc FOX") !! i = Some t ->
    [lit "quic"; lit "fox"] !! i = Some u ->
    in_ht (ProcessData.process ∅ [lit "The Quick Brown Fox"] (lit "a.txt")) u
      = true /\
    (in_ht (ProcessData.process ∅ [lit "The Quick Brown Fox"] (lit "a.txt")) t
       = true -> u = t).
Proof.
  apply (resolved_tokens_are_keys
           (ProcessData.process ∅ [lit "The Quick Brown Fox"] (lit "a.txt"))
           (lit "quikc FOX") [lit "quic"; lit "fox"]).
  set (ht := ProcessData.process _ _ _).
  eexists. unfold AutoComplete.tokenize.
  replace (Re.findall (Py.strip (Py.lower (lit "quikc FOX"))))
    with [lit "quikc"; lit "fox"] by (vm_compute; reflexivity).
  cbn [AutoComplete.resolve_loop].
  replace (in_ht ht (lit "quikc")) with false by (vm_compute; reflexivity).
  replace (AutoComplete.get_best_completions ht (lit "quikc"))
    with (@Ok str (lit "quic")) by (vm_compute; reflexivity).
  cbn [mbind result_bind].
  replace (Py.nonempty (lit "quic")) with true by reflexivity.
  replace (in_ht ht (lit "fox")) with true by (vm_compute; reflexivity).
  reflexivity.
Defined.

(** * Further properties of the filter and of the engine *)

Lemma while_scan_bound input_rest : forall line_rest j0 j,
  AutoComplete.while_scan input_rest line_rest j0 = AutoComplete.ScanEnd j ->
  (j <= j0 + length line_rest)%nat.
Proof.
  induction input_rest as [|u input_rest IH]; intros line_rest j0 j; simpl.
  - intros [= <-]. lia.
  - destruct line_rest as [|w line_rest]; [intros [= <-]; simpl; lia|].
    destruct (Py.contains u w); [|discriminate].
    intros H%IH. simpl. lia.
Qed.

Lemma while_scan_run input_rest : forall line_rest j0,
  run_at input_rest line_rest 0 ->
  AutoComplete.while_scan input_rest line_rest j0
  = AutoComplete.ScanEnd (j0 + length input_rest).
Proof.
  induction input_rest as [|u input_rest IH]; intros line_rest j0 Hrun; simpl.
  - f_equal. lia.
  - destruct (Hrun 0%nat u eq_refl) as (w & Hw & Hsub).
    destruct line_rest as [|w' line_rest]; [discriminate|].
    simpl in Hw. injection Hw as ->.
    apply contains_spec in Hsub. rewrite Hsub.
    rewrite IH; [f_equal; lia|].
    intros j x Hj. exact (Hrun (S j) x Hj).
Qed.

Lemma while_scan_false input_rest : forall line_rest j0,
  AutoComplete.while_scan input_rest line_rest j0 = AutoComplete.ScanFalse ->
  ~ run_at input_rest line_rest 0.
Proof.
  intros line_rest j0 Hscan Hrun.
  rewrite (while_scan_run _ _ j0 Hrun) in Hscan. discriminate.
Qed.

Lemma check_from_short user_input_words : forall line_rest,
  (length line_rest < length user_input_words)%nat ->
  AutoComplete.check_from user_input_words line_rest = Ok false.
Proof.
  induction line_rest as [|word rest IH]; intros Hlen; simpl; [reflexivity|].
  destruct user_input_words as [|first others] eqn:Hu; [simpl in Hlen; lia|].
  rewrite <- Hu in *. simpl in Hlen.
  destruct (Py.contains first word); [|apply IH; lia].
  destruct (AutoComplete.while_scan user_input_words (word :: rest) 0)
    as [|j] eqn:Hscan; [reflexivity|].
  apply while_scan_bound in Hscan. simpl in Hscan.
  destruct (Nat.eqb_spec j (length user_input_words)); [lia|].
  apply IH. lia.
Qed.

Lemma while_scan_end_cases input_rest : forall line_rest j0 j,
  AutoComplete.while_scan input_rest line_rest j0 = AutoComplete.ScanEnd j ->
  j = (j0 + length input_rest)%nat \/
  (length line_rest < length input_rest)%nat.
Proof.
  induction input_rest as [|u input_rest IH]; intros line_rest j0 j; simpl.
  - intros [= <-]. left. lia.
  - destruct line_rest as [|w line_rest]; [intros _; right; simpl; lia|].
    destruct (Py.contains u w); [|discriminate].
    intros [->|H]%IH; [left | right; simpl]; lia.
Qed.

Lemma run_at_length (resolved line_words : list str) (i : nat) :
  resolved <> [] -> run_at resolved line_words i ->
  (i + length resolved <= length line_words)%nat.
Proof.
  intros Hne Hrun.
  destruct (lookup_lt_is_Some_2 resolved (length resolved - 1)) as [x Hx].
  { destruct resolved; [congruence | simpl; lia]. }
  destruct (Hrun _ _ Hx) as (w & Hw%lookup_lt_Some & _).
  destruct resolved; [congruence | simpl in *; lia].
Qed.

Lemma check_from_exact first others : forall line_rest,
  AutoComplete.check_from (first :: others) line_rest = Ok true <->
  exists i : nat,
    (forall (j : nat) w, (j < i)%nat -> line_rest !! j = Some w ->
       ~ substring first w) /\
    run_at (first :: others) line_rest i.
Proof.
  induction line_rest as [|word rest IH]; cbn [AutoComplete.check_from].
  - split; [discriminate|]. intros (i & _ & Hrun).
    destruct (Hrun 0%nat first eq_refl) as (w & Hw & _).
    by rewrite lookup_nil in Hw.
  - assert (Hskip : ~ substring first word ->
      (AutoComplete.check_from (first :: others) rest = Ok true <->
       exists i : nat,
         (forall (j : nat) w, (j < i)%nat -> (word :: rest) !! j = Some w ->
            ~ substring first w) /\
         run_at (first :: others) (word :: rest) i)).
    { intros Hno. rewrite IH. split.
      - intros (i & Hbefore & Hrun). exists (S i). split.
        + intros [|j] w Hj; simpl; [by intros [= <-]|]. apply Hbefore. lia.
        + intros j u Hu. exact (Hrun j u Hu).
      - intros (i & Hbefore & Hrun). destruct i as [|i].
        + destruct (Hrun 0%nat first eq_refl) as (w & Hw & Hsub).
          simpl in Hw. injection Hw as <-. contradiction.
        + exists i. split.
          * intros j w Hj Hw. apply (Hbefore (S j) w); [lia | exact Hw].
          * intros j u Hu. exact (Hrun j u Hu). }
    destruct (Py.contains first word) eqn:Hc.
    2:{ apply Hskip. intros H%contains_spec. congruence. }
    apply contains_spec in Hc.
    assert (Hzero : forall i : nat,
      (forall (j : nat) w, (j < i)%nat -> (word :: rest) !! j = Some w ->
         ~ substring first w) -> i = 0%nat).
    { intros [|i] Hbefore; [reflexivity|].
      destruct (Hbefore 0%nat word); [lia | reflexivity | exact Hc]. }
    destruct (AutoComplete.while_scan (first :: others) (word :: rest) 0)
      as [|j] eqn:Hscan.
    + split; [discriminate|]. intros (i & Hbefore & Hrun).
      rewrite (Hzero i Hbefore) in Hrun.
      by apply while_scan_false in Hscan.
    + destruct (Nat.eqb_spec j (length (first :: others))) as [->|Hne].
      * split; [|reflexivity]. intros _. exists 0%nat. split; [lia|].
        apply while_scan_end in Hscan as [_ Hrun]. by apply Hrun.
      * destruct (while_scan_end_cases _ _ _ _ Hscan) as [->|Hshort];
          [by simpl in Hne|].
        rewrite check_from_short by (simpl in *; lia).
        split; [discriminate|]. intros (i & Hbefore & Hrun).
        apply run_at_length in Hrun; [lia | discriminate].
Qed.

(** X18. [check_if_input_in_line] answers [True] exactly when the run of
    line words that starts at the first line word containing the first
    input word matches every input word in turn; a run that starts at a
    later line word is never tried. *)
Theorem ordered_filter_exact (user_input_words line_words : list str)
    (first : str) (others : list str) :
  user_input_words = first :: others ->
  (AutoComplete.check_if_input_in_line user_input_words line_words = Ok true
   <->
   exists i : nat,
     (forall (j : nat) w, (j < i)%nat -> line_words !! j = Some w ->
        ~ substring first w) /\
     run_at user_input_words line_words i).
Proof. intros ->. apply check_from_exact. Qed.

Lemma ordered_filter_exact_witness :
  AutoComplete.check_if_input_in_line [lit "red"; lit "fox"]
    [lit "red"; lit "hen"; lit "red"; lit "fox"] = Ok true
  <->
  exists i : nat,
    (forall (j : nat) w, (j < i)%nat ->
       [lit "red"; lit "hen"; lit "red"; lit "fox"] !! j = Some w ->
       ~ substring (lit "red") w) /\
    run_at [lit "red"; lit "fox"]
      [lit "red"; lit "hen"; lit "red"; lit "fox"] i.
Proof.
  apply (ordered_filter_exact [lit "red"; lit "fox"]
           [lit "red"; lit "hen"; lit "red"; lit "fox"]
           (lit "red") [lit "fox"]).
  reflexivity.
Defined.

(** ** Results *)

Lemma filter_lines_sublist correct lines : forall kept,
  AutoComplete.filter_lines correct lines = Ok kept -> sublist kept lines.
Proof.
  induction lines as [|l lines IH]; intros kept; simpl.
  - intros [= <-]. constructor.
  - destruct (AutoComplete.check_if_input_in_line correct _) as [keep|e];
      simpl; [|discriminate].
    destruct (AutoComplete.filter_lines correct lines) as [kept'|e];
      simpl; [|discriminate].
    intros [= <-]. destruct keep.
    + apply sublist_skip. by apply IH.
    + apply sublist_cons. by apply IH.
Qed.

Lemma draw_NoDup {A} rnd : forall (k j : nat) (pool : list A),
  NoDup pool -> NoDup (Py.draw rnd j pool k).
Proof.
  induction k as [|k IH]; intros j pool Hnd; simpl; [constructor|].
  destruct (pool !! (rnd j mod length pool)%nat) as [x|] eqn:E;
    [|constructor].
  pose proof (take_drop_middle _ _ _ E) as Hmid.
  rewrite <- Hmid in Hnd. apply NoDup_app in Hnd as (Hl & Hlr & Hr).
  apply NoDup_cons in Hr as [Hx Hr].
  assert (Hrest : NoDup (take (rnd j mod length pool) pool
                         ++ drop (S (rnd j mod length pool)) pool)).
  { apply NoDup_app. split; [exact Hl|]. split; [|exact Hr].
    intros y Hy Hy'. apply (Hlr y Hy). by right. }
  apply NoDup_cons. split; [|by apply IH].
  intros Hin%list_elem_of_In%draw_subset%list_elem_of_In.
  apply elem_of_app in Hin as [Hin|Hin]; [|contradiction].
  apply (Hlr x Hin). by left.
Qed.

Lemma final_lines_NoDup ht user_input final :
  AutoComplete.final_lines ht user_input = Ok (Some final) -> NoDup final.
Proof.
  unfold AutoComplete.final_lines. cbv zeta.
  destruct (AutoComplete.resolve_loop ht _ ∅ []) as [[[lines correct]|]|e];
    simpl; try discriminate.
  destruct (_ <? _)%nat.
  - destruct (AutoComplete.filter_lines correct (elements lines))
      as [kept|e] eqn:Hk; simpl; [|discriminate].
    intros [= <-].
    apply (sublist_NoDup kept (elements lines)); [apply NoDup_elements|].
    exact (filter_lines_sublist _ _ _ Hk).
  - intros [= <-]. apply NoDup_elements.
Qed.

(** X19. The engine never returns the same line twice: the results are
    pairwise distinct, whatever the query, the limit and the random
    draw. *)
Theorem results_never_repeat (rnd : nat -> nat) (ht : Index)
    (user_input : str) (k : Z) (results : list AutoCompleteData) :
  AutoComplete.get_best_k_completion rnd ht user_input k = Ok results ->
  NoDup results.
Proof.
  unfold AutoComplete.get_best_k_completion.
  destruct (AutoComplete.final_lines ht user_input) as [[final|]|e] eqn:Hf;
    simpl; [| intros [= <-]; constructor | discriminate].
  apply final_lines_NoDup in Hf.
  assert (Hmap : forall l, NoDup l ->
            NoDup (AutoComplete.create_auto_complete l)).
  { intros l Hl. unfold AutoComplete.create_auto_complete.
    apply (NoDup_fmap_2_strong completion_of); [|exact Hl].
    intros a b _ _. apply completion_of_inj. }
  destruct (_ >? _).
  - unfold Py.sample. destruct (_ || _); simpl; [discriminate|].
    intros [= <-]. by apply Hmap, draw_NoDup.
  - intros [= <-]. by apply Hmap.
Qed.

Lemma results_never_repeat_witness :
  NoDup [completion_of (lit "The Quick Brown Fox", 1, lit "a.txt")].
Proof.
  apply (results_never_repeat (fun _ => 0%nat)
           (ProcessData.process ∅
              [lit "The Quick Brown Fox"; lit "fox brown trick"] (lit "a.txt"))
           (lit "brown fox") 5).
  vm_compute. reflexivity.
Defined.

(** X20. The limit at its edges: with [k = 0] the engine returns the
    empty list; with a negative [k] it raises [ValueError] whenever the
    query resolves (the sample is asked for a negative size), and returns
    the empty list only when a token is unresolvable. *)
Theorem limit_edge_cases (rnd : nat -> nat) (ht : Index) (user_input : str)
    (k : Z) :
  (k = 0 -> AutoComplete.get_best_k_completion rnd ht user_input k = Ok []) /\
  (k < 0 ->
   (forall final, AutoComplete.final_lines ht user_input = Ok (Some final) ->
      AutoComplete.get_best_k_completion rnd ht user_input k
      = Raise ValueError) /\
   (AutoComplete.final_lines ht user_input = Ok None ->
      AutoComplete.get_best_k_completion rnd ht user_input k = Ok [])).
Proof.
  unfold AutoComplete.get_best_k_completion. split.
  - intros ->. destruct (final_lines_ok ht user_input) as [[final|] ->];
      simpl; [|reflexivity].
    destruct (Z.gtb_spec (Z.of_nat (length final)) 0).
    + unfold Py.sample.
      destruct (Z.ltb_spec (Z.of_nat (length final)) 0); [lia|]. reflexivity.
    + destruct final; [reflexivity | simpl in *; lia].
  - intros Hk. split.
    + intros final ->. simpl.
      destruct (Z.gtb_spec (Z.of_nat (length final)) k); [|lia].
      unfold Py.sample. destruct (Z.ltb_spec k 0); [reflexivity | lia].
    + by intros ->.
Qed.

(** X21. A query without any token (empty, blank, digits, punctuation)
    gives the empty list for every limit [k >= 0]. *)
Theorem empty_query_gives_nothing (rnd : nat -> nat) (ht : Index)
    (user_input : str) (k : Z) :
  AutoComplete.tokenize user_input = [] -> 0 <= k ->
  AutoComplete.get_best_k_completion rnd ht user_input k = Ok [].
Proof.
  intros Htok Hk.
  assert (Hfinal : AutoComplete.final_lines ht user_input = Ok (Some [])).
  { unfold AutoComplete.final_lines. cbv zeta. rewrite Htok.
    cbn [AutoComplete.resolve_loop mbind result_bind length Nat.ltb Nat.leb].
    by rewrite elements_empty. }
  unfold AutoComplete.get_best_k_completion. rewrite Hfinal.
  cbn [mbind result_bind length].
  destruct (Z.gtb_spec (Z.of_nat 0) k); [lia | reflexivity].
Qed.

Lemma empty_query_gives_nothing_witness :
  AutoComplete.get_best_k_completion (fun _ => 0%nat)
    (ProcessData.process ∅ [lit "The Quick Brown Fox"] (lit "a.txt"))
    (lit " 42 ?! x_1 ") 5 = Ok [].
Proof.
  apply (empty_query_gives_nothing (fun _ => 0%nat)
           (ProcessData.process ∅ [lit "The Quick Brown Fox"] (lit "a.txt"))
           (lit " 42 ?! x_1 ") 5).
  - vm_compute. reflexivity.
  - lia.
Defined.

(** ** What the candidate set always satisfies *)

Lemma narrow_subset (ht : Index) (lines : gset LineRecord) (w : str) (x : LineRecord) :
  x ∈ AutoComplete.narrow ht lines w -> In x (ht_get ht w).
Proof.
  unfold AutoComplete.narrow. destruct (_ =? _)%nat.
  - intros H%elem_of_list_to_set. by apply list_elem_of_In.
  - intros [_ H%elem_of_list_to_set]%elem_of_intersection.
    by apply list_elem_of_In.
Qed.

Lemma resolve_loop_last_kept (ht : Index) user_words :
  forall (lines : gset LineRecord) correct lines' correct',
  (exists u, last correct = Some u /\
     forall x : LineRecord, x ∈ lines -> In x (ht_get ht u)) ->
  AutoComplete.resolve_loop ht user_words lines correct
    = Ok (Some (lines', correct')) ->
  exists u, last correct' = Some u /\
    forall x : LineRecord, x ∈ lines' -> In x (ht_get ht u).
Proof.
  induction user_words as [|word rest IH]; intros lines correct lines' correct';
    cbn [AutoComplete.resolve_loop].
  - intros H [= <- <-]. exact H.
  - intros _. destruct (in_ht ht word).
    + apply IH. exists word. split; [apply last_snoc|]. apply narrow_subset.
    + destruct (AutoComplete.get_best_completions ht word) as [new_word|e];
        [|discriminate].
      cbn [mbind result_bind].
      destruct (Py.nonempty new_word); [|discriminate].
      apply IH. exists new_word. split; [apply last_snoc|].
      apply narrow_subset.
Qed.

Lemma resolve_loop_last (ht : Index) user_words :
  forall (lines : gset LineRecord) correct lines' correct',
  user_words <> [] ->
  AutoComplete.resolve_loop ht user_words lines correct
    = Ok (Some (lines', correct')) ->
  exists u, last correct' = Some u /\
    forall x : LineRecord, x ∈ lines' -> In x (ht_get ht u).
Proof.
  intros lines correct lines' correct' Hne.
  destruct user_words as [|word rest]; [congruence|].
  cbn [AutoComplete.resolve_loop].
  destruct (in_ht ht word).
  - apply resolve_loop_last_kept. exists word.
    split; [apply last_snoc | apply narrow_subset].
  - destruct (AutoComplete.get_best_completions ht word) as [new_word|e];
      [|discriminate].
    cbn [mbind result_bind].
    destruct (Py.nonempty new_word); [|discriminate].
    apply resolve_loop_last_kept. exists new_word.
    split; [apply last_snoc | apply narrow_subset].
Qed.

Lemma final_lines_from_set (ht : Index) user_input final
    (line : LineRecord) :
  AutoComplete.final_lines ht user_input = Ok (Some final) ->
  In line final ->
  exists lines resolved,
    AutoComplete.resolve_loop ht (AutoComplete.tokenize user_input) ∅ []
      = Ok (Some (lines, resolved)) /\
    line ∈ lines.
Proof.
  unfold AutoComplete.final_lines. cbv zeta.
  destruct (AutoComplete.resolve_loop ht _ ∅ []) as [[[lines resolved]|]|e];
    cbn [mbind result_bind]; try discriminate.
  intros Hfinal Hin. exists lines, resolved. split; [reflexivity|].
  apply elem_of_elements, list_elem_of_In.
  destruct (_ <? _)%nat.
  - destruct (AutoComplete.filter_lines resolved (elements lines))
      as [kept|e] eqn:Hk; cbn [mbind result_bind] in Hfinal; [|discriminate].
    injection Hfinal as <-.
    by destruct (filter_lines_kept _ _ _ _ Hk Hin).
  - by injection Hfinal as <-.
Qed.

(** X22. Every returned line is a record of the index entry of the last
    resolved token of the query; this holds for every query, also when the
    running set was started again after an empty intersection. *)
Theorem results_in_last_entry (rnd : nat -> nat) (ht : Index)
    (user_input : str) (k : Z) (results : list AutoCompleteData)
    (r : AutoCompleteData) :
  AutoComplete.get_best_k_completion rnd ht user_input k = Ok results ->
  In r results ->
  exists resolved u line,
    (exists lines,
       AutoComplete.resolve_loop ht (AutoComplete.tokenize user_input) ∅ []
       = Ok (Some (lines, resolved))) /\
    last resolved = Some u /\ In line (ht_get ht u) /\
    r = completion_of line.
Proof.
  intros Hres Hr.
  destruct (results_from_final _ _ _ _ _ r Hres Hr)
    as (final & line & Hfinal & Hin & ->).
  destruct (final_lines_from_set _ _ _ _ Hfinal Hin)
    as (lines & resolved & Hloop & Hline).
  destruct (AutoComplete.tokenize user_input) as [|t ts] eqn:Htok.
  { cbn [AutoComplete.resolve_loop] in Hloop. injection Hloop as <- <-.
    by apply not_elem_of_empty in Hline. }
  destruct (resolve_loop_last ht (t :: ts) ∅ [] lines resolved)
    as (u & Hlast & Hsub); [discriminate | exact Hloop |].
  exists resolved, u, line. split; [by exists lines|].
  split; [exact Hlast|]. split; [by apply Hsub | reflexivity].
Qed.

Lemma results_in_last_entry_witness :
  exists resolved u line,
    (exists lines,
       AutoComplete.resolve_loop
         (ProcessData.process ∅ [lit "aa"; lit "bb"; lit "xaay xbby cc"]
            (lit "a.txt"))
         (AutoComplete.tokenize (lit "aa bb cc")) ∅ []
       = Ok (Some (lines, resolved))) /\
    last resolved = Some u /\
    In line
      (ht_get (ProcessData.process ∅ [lit "aa"; lit "bb"; lit "xaay xbby cc"]
                 (lit "a.txt")) u) /\
    completion_of (lit "xaay xbby cc", 3, lit "a.txt") = completion_of line.
Proof.
  apply (results_in_last_entry (fun _ => 0%nat)
           (ProcessData.process ∅ [lit "aa"; lit "bb"; lit "xaay xbby cc"]
              (lit "a.txt"))
           (lit "aa bb cc") 5
           [completion_of (lit "xaay xbby cc", 3, lit "a.txt")]).
  - vm_compute. reflexivity.
  - left. reflexivity.
Defined.

Lemma elements_list_to_set_length (l : list LineRecord) :
  (length (elements (list_to_set l : gset LineRecord)) <= length l)%nat.
Proof.
  apply submseteq_length, NoDup_submseteq; [apply NoDup_elements|].
  intros x Hx%elem_of_elements. by apply elem_of_list_to_set in Hx.
Qed.

(** X23. A query made of one token that is a key returns exactly the
    lines of the entry of that token, each once, when the limit [k] is at
    least the length of the entry. *)
Theorem single_known_token_results (rnd : nat -> nat) (ht : Index)
    (user_input t : str) (k : Z) :
  AutoComplete.tokenize user_input = [t] ->
  in_ht ht t = true ->
  Z.of_nat (length (ht_get ht t)) <= k ->
  exists results,
    AutoComplete.get_best_k_completion rnd ht user_input k = Ok results /\
    NoDup results /\
    forall r, In r results <->
      exists line, In line (ht_get ht t) /\ r = completion_of line.
Proof.
  intros Htok Hin Hk.
  assert (Hfinal : AutoComplete.final_lines ht user_input
            = Ok (Some (elements (list_to_set (ht_get ht t)
                                    : gset LineRecord)))).
  { unfold AutoComplete.final_lines. cbv zeta. rewrite Htok.
    cbn [AutoComplete.resolve_loop]. rewrite Hin.
    cbn [AutoComplete.resolve_loop mbind result_bind length Nat.ltb Nat.leb].
    unfold AutoComplete.narrow. by rewrite size_empty. }
  assert (Hgbk : AutoComplete.get_best_k_completion rnd ht user_input k
            = Ok (AutoComplete.create_auto_complete
                    (elements (list_to_set (ht_get ht t) : gset LineRecord)))).
  { unfold AutoComplete.get_best_k_completion. rewrite Hfinal.
    cbn [mbind result_bind].
    pose proof (elements_list_to_set_length (ht_get ht t)).
    destruct (Z.gtb_spec
                (Z.of_nat (length (elements (list_to_set (ht_get ht t)
                                               : gset LineRecord)))) k);
      [lia | reflexivity]. }
  eexists. split; [exact Hgbk|]. split.
  - unfold AutoComplete.create_auto_complete.
    apply (NoDup_fmap_2_strong completion_of); [|apply NoDup_elements].
    intros a b _ _. apply completion_of_inj.
  - intros r. unfold AutoComplete.create_auto_complete.
    rewrite in_map_iff. split.
    + intros (line & <- & Hl). exists line. split; [|reflexivity].
      apply list_elem_of_In, elem_of_elements, elem_of_list_to_set in Hl.
      by apply list_elem_of_In.
    + intros (line & Hl & ->). exists line. split; [reflexivity|].
      apply list_elem_of_In, elem_of_elements, elem_of_list_to_set.
      by apply list_elem_of_In.
Qed.

Lemma single_known_token_results_witness :
  exists results,
    AutoComplete.get_best_k_completion (fun _ => 0%nat)
      (ProcessData.process ∅ [lit "big fox"; lit "red hen"; lit "Fox!"]
         (lit "a.txt"))
      (lit " FOX ") 5 = Ok results /\
    NoDup results /\
    forall r, In r results <->
      exists line,
        In line
          (ht_get (ProcessData.process ∅
                     [lit "big fox"; lit "red hen"; lit "Fox!"] (lit "a.txt"))
             (lit "fox")) /\
        r = completion_of line.
Proof.
  apply (single_known_token_results (fun _ => 0%nat)
           (ProcessData.process ∅ [lit "big fox"; lit "red hen"; lit "Fox!"]
              (lit "a.txt"))
           (lit " FOX ") (lit "fox") 5).
  - vm_compute. reflexivity.
  - vm_compute. reflexivity.
  - vm_compute. discriminate.
Defined.

(** ** Normalising the query beforehand *)

Lemma lower_char_idem c : Py.lower_char (Py.lower_char c) = Py.lower_char c.
Proof. destruct c as [[] [] [] [] [] [] [] []]; reflexivity. Qed.

Lemma is_space_lower_char c : Py.is_space (Py.lower_char c) = Py.is_space c.
Proof. destruct c as [[] [] [] [] [] [] [] []]; reflexivity. Qed.

Lemma lower_idem s : Py.lower (Py.lower s) = Py.lower s.
Proof.
  unfold Py.lower. rewrite map_map. apply map_ext. intros c.
  apply lower_char_idem.
Qed.

Lemma drop_while_space_lower s :
  Py.drop_while Py.is_space (Py.lower s)
  = Py.lower (Py.drop_while Py.is_space s).
Proof.
  induction s as [|c s IH]; simpl; [reflexivity|].
  rewrite is_space_lower_char. by destruct (Py.is_space c).
Qed.

Lemma strip_lower s : Py.strip (Py.lower s) = Py.lower (Py.strip s).
Proof.
  unfold Py.strip. rewrite drop_while_space_lower.
  unfold Py.lower at 1. rewrite <- map_rev. fold (Py.lower (rev (Py.drop_while Py.is_space s))).
  rewrite drop_while_space_lower. unfold Py.lower. by rewrite map_rev.
Qed.

Lemma drop_while_idem (P : ascii -> bool) s :
  Py.drop_while P (Py.drop_while P s) = Py.drop_while P s.
Proof.
  induction s as [|c s IH]; simpl; [reflexivity|].
  destruct (P c) eqn:E; [exact IH|]. simpl. by rewrite E.
Qed.

Lemma drop_while_fixed (P : ascii -> bool) s :
  (forall x rest, s = x :: rest -> P x = false) -> Py.drop_while P s = s.
Proof.
  destruct s as [|c s]; intros H; simpl; [reflexivity|].
  by rewrite (H c s eq_refl).
Qed.

Lemma strip_idem s : Py.strip (Py.strip s) = Py.strip s.
Proof.
  unfold Py.strip.
  set (s1 := Py.drop_while Py.is_space s).
  set (t := Py.drop_while Py.is_space (rev s1)).
  assert (Hfix : Py.drop_while Py.is_space (rev t) = rev t).
  { apply drop_while_fixed. intros x rest Hx.
    pose proof (take_drop_while Py.is_space (rev s1)) as Happ.
    fold t in Happ. apply (f_equal (@rev ascii)) in Happ.
    rewrite rev_app_distr, rev_involutive, Hx in Happ. simpl in Happ.
    apply (drop_while_head Py.is_space s x
             (rest ++ rev (Py.take_while Py.is_space (rev s1)))).
    exact (eq_sym Happ). }
  rewrite Hfix, rev_involutive. unfold t. by rewrite drop_while_idem.
Qed.

Lemma tokenize_normalised user_input :
  AutoComplete.tokenize (Py.lower (Py.strip user_input))
  = AutoComplete.tokenize user_input.
Proof.
  unfold AutoComplete.tokenize.
  by rewrite lower_idem, <- strip_lower, strip_idem.
Qed.

(** X24. Trimming and lowercasing the query before the call, as the
    interactive loop does, changes nothing: the engine gives the same
    answer on the raw query. *)
Theorem normalised_query_same_result (rnd : nat -> nat) (ht : Index)
    (user_input : str) (k : Z) :
  AutoComplete.get_best_k_completion rnd ht (Py.lower (Py.strip user_input)) k
  = AutoComplete.get_best_k_completion rnd ht user_input k.
Proof.
  unfold AutoComplete.get_best_k_completion, AutoComplete.final_lines.
  cbv zeta. by rewrite tokenize_normalised.
Qed.

(** ** The result count against the intersection *)

(** C7, at the corpus ["aa"], ["bb"], ["xaay xbby cc"] and the query
    ["aa bb cc"] with [k = 5]: the three tokens are keys, the intersection
    of their record lists is empty, so the intersection-and-filter count
    is 0, which is at most [k]; the engine returns one line.  The length
    stays at most [k]. *)
Theorem cardinality_differs_from_intersection_count (rnd : nat -> nat) :
  let ht := ProcessData.process ∅
              [lit "aa"; lit "bb"; lit "xaay xbby cc"] (lit "a.txt") in
  AutoComplete.tokenize (lit "aa bb cc") = [lit "aa"; lit "bb"; lit "cc"] /\
  in_ht ht (lit "aa") = true /\ in_ht ht (lit "bb") = true /\
  in_ht ht (lit "cc") = true /\
  intersection_and_filter ht [lit "aa"; lit "bb"; lit "cc"] = [] /\
  exists results,
    AutoComplete.get_best_k_completion rnd ht (lit "aa bb cc") 5 = Ok results /\
    length results = 1%nat /\
    Z.of_nat (length (intersection_and_filter ht
                        [lit "aa"; lit "bb"; lit "cc"])) <= 5 /\
    length results
      <> length (intersection_and_filter ht [lit "aa"; lit "bb"; lit "cc"]).
Proof.
  cbv zeta. repeat (split; [vm_compute; reflexivity|]).
  eexists. split; [vm_compute; reflexivity|].
  split; [reflexivity|]. split; vm_compute; congruence.
Qed.
